(** * QuantumEmbeddings: data embeddings as Qiskit circuits

    A shallow embedding of the embedding classes of the repository
    (BasisEmbedding, AngleEmbedding, DisplacementEmbedding,
    SqueezingEmbedding and the two custom gates) together with the
    properties stated about them.

    Conventions.
    - Python [int] is [Z].
    - The floats that the code computes with, the angle arithmetic of
      the two [inverse] methods ([+] and [%]), are IEEE 754 binary64
      numbers with their rounding, signed zeros, infinities and NaN.
    - The floats that the code only writes down or passes to numpy's
      [cos], [sin], [cosh] and [sinh] (the constants handed to the
      circuits and the entries of the gate matrices) are real numbers
      ([R]).
    - A Python exception is a value of [exn]; code that can raise returns
      a [Result].
    - Only the part of Qiskit the classes call is modelled: a
      [ParameterVector] is the list of its elements, a [QuantumCircuit]
      is its qubit count and its ordered list of instructions.
      [QuantumCircuit.unitary], which the custom gates call on a matrix,
      is an argument of their [_define]. *)

From Stdlib Require Import List ZArith Bool String Lia Reals Lra.
From Stdlib Require Import Finite Permutation.
From Stdlib Require Import SpecFloat.
Import ListNotations.

Set Warnings "-register-all".

Open Scope string_scope.
Open Scope Z_scope.

(** ** Exceptions and fallible computations *)

Inductive exn : Type :=
| QiskitError (msg : string)
| CircuitError
| IndexError
| ValueError
| ZeroDivisionError.

Definition Result (A : Type) : Type := (exn + A)%type.

Definition ok {A : Type} (a : A) : Result A := inr a.
Definition raise {A : Type} (e : exn) : Result A := inl e.

Definition bind {A B : Type} (m : Result A) (k : A -> Result B) : Result B :=
  match m with
  | inl e => inl e
  | inr a => k a
  end.

Notation "x <- m ;; k" := (bind m (fun x => k))
  (at level 61, m at next level, right associativity).
Notation "' p <- m ;; k" := (bind m (fun x => match x with p => k end))
  (at level 61, p pattern, m at next level, right associativity).

(** ** Binary64 floating-point numbers

    The values of a Python [float], in the representation of the
    standard library's [SpecFloat]: a zero, an infinity, NaN, or a
    sign, a mantissa and an exponent.  Sums and products are rounded to
    nearest, ties to even. *)

Definition prec : Z := 53.
Definition emax : Z := 1024.

(** The real number [m * 2 ^ e]. *)
Definition bpow (e : Z) : R := powerRZ 2 e.

Definition F2R (m e : Z) : R := (IZR m * bpow e)%R.

Module Binary64.

Definition t : Type := spec_float.

Definition zero : t := S754_zero false.

(** The float [2.0]. *)
Definition two : t := S754_finite false 4503599627370496 (-51).

Definition add : t -> t -> t := SFadd prec emax.
Definition mul : t -> t -> t := SFmul prec emax.
Definition eqb : t -> t -> bool := SFeqb.
Definition ltb : t -> t -> bool := SFltb.

(** The mantissa and the exponent are those of a binary64 number. *)
Definition valid : t -> bool := valid_binary prec emax.

Definition sign (x : t) : bool :=
  match x with
  | S754_zero s | S754_infinity s | S754_finite s _ _ => s
  | S754_nan => false
  end.

Definition is_finite (x : t) : bool :=
  match x with
  | S754_zero _ | S754_finite _ _ _ => true
  | _ => false
  end.

(** C's [fmod(x, y)]: the remainder of [x / y] truncated toward zero.
    It has the sign of [x] and is computed without rounding. *)
Definition fmod (x y : t) : t :=
  match x, y with
  | S754_nan, _ | _, S754_nan => S754_nan
  | S754_infinity _, _ => S754_nan
  | _, S754_zero _ => S754_nan
  | S754_zero _, _ => x
  | S754_finite _ _ _, S754_infinity _ => x
  | S754_finite sx mx ex, S754_finite _ my ey =>
      let ez := Z.min ex ey in
      let X := Zpos (fst (shl_align mx ex ez)) in
      let Y := Zpos (fst (shl_align my ey ez)) in
      binary_normalize prec emax (cond_Zopp sx (Z.modulo X Y)) ez sx
  end.

(** The real number a finite float stands for (0 for the others). *)
Definition value (x : t) : R :=
  match x with
  | S754_finite s m e => if s then (- F2R (Zpos m) e)%R else F2R (Zpos m) e
  | _ => 0%R
  end.

End Binary64.

(** ** The fragment of Python the classes rely on *)

Module Py.

(** [range(n)]: empty when [n <= 0]. *)
Definition range (n : Z) : list Z := map Z.of_nat (seq 0 (Z.to_nat n)).

Definition len {A : Type} (l : list A) : Z := Z.of_nat (List.length l).

(** [l[i]] on a list: negative indices count from the end, anything
    else out of range raises IndexError. *)
Definition getitem {A : Type} (l : list A) (i : Z) : Result A :=
  let k := if i <? 0 then i + len l else i in
  if (0 <=? k) && (k <? len l) then
    match nth_error l (Z.to_nat k) with
    | Some a => ok a
    | None => raise IndexError
    end
  else raise IndexError.

(** [for a in l: s = body a s], stopping at the first exception. *)
Fixpoint for_each {A S : Type} (l : list A) (body : A -> S -> Result S)
         (s : S) : Result S :=
  match l with
  | [] => ok s
  | a :: l' => s' <- body a s ;; for_each l' body s'
  end.

(** [v % w] on floats, as CPython's [float_rem] computes it: a zero
    divisor raises; otherwise the result is [fmod(v, w)], to which [w]
    is added when it is not zero and its sign differs from the sign of
    [w]; a zero result takes the sign of [w]. *)
Definition float_rem (v w : Binary64.t) : Result Binary64.t :=
  if Binary64.eqb w Binary64.zero then raise ZeroDivisionError
  else
    let mod_ := Binary64.fmod v w in
    if negb (Binary64.eqb mod_ Binary64.zero) then
      if xorb (Binary64.ltb w Binary64.zero) (Binary64.ltb mod_ Binary64.zero)
      then ok (Binary64.add mod_ w)
      else ok mod_
    else ok (S754_zero (Binary64.sign w)).

(** Dynamically typed arguments, as far as the constructors inspect
    them. *)
Inductive object : Type :=
| PyNone
| PyBool (b : bool)
| PyInt (z : Z)
| PyStr (s : string)
| PyList (items : list object)
| PyTuple (items : list object).

Definition isinstance_list (o : object) : bool :=
  match o with PyList _ => true | _ => false end.

Definition isinstance_str (o : object) : bool :=
  match o with PyStr _ => true | _ => false end.

End Py.

(** ** The fragment of numpy the classes rely on *)

Module Np.

(** [np.pi]: the float 3.141592653589793. *)
Definition pi : Binary64.t := S754_finite false 7074237752028440 (-51).

End Np.

(** ** The fragment of Qiskit the classes rely on *)

Module Qiskit.

(** A symbolic parameter: an element [name[index]] of a parameter
    vector, or a float multiple of an expression. *)
Inductive ParameterExpression : Type :=
| ParameterVectorElement (name : string) (index : Z)
| Mul (c : R) (e : ParameterExpression).

(** [ParameterVector(name, length)]: its elements, in order. *)
Definition ParameterVector (name : string) (length : Z)
  : list ParameterExpression :=
  map (ParameterVectorElement name) (Py.range length).

(** What a gate parameter can be: a float or a symbolic expression. *)
Inductive ParameterValueType : Type :=
| Float (r : R)
| Expr (e : ParameterExpression).

(** [Gate(name, num_qubits, params)]. *)
Record Gate (P : Type) : Type := mkGate {
  name : string;
  num_qubits : Z;
  params : list P
}.
Arguments mkGate {P} _ _ _.
Arguments name {P} _.
Arguments num_qubits {P} _.
Arguments params {P} _.

Record CircuitInstruction : Type := mkInstruction {
  operation : Gate ParameterValueType;
  qubits : list Z
}.

Record QuantumCircuit : Type := mkCircuit {
  qc_num_qubits : Z;
  data : list CircuitInstruction
}.

(** [QuantumCircuit(n)]: an empty circuit over [n] qubits. *)
Definition new_circuit (n : Z) : Result QuantumCircuit :=
  if n <? 0 then raise CircuitError else ok (mkCircuit n []).

(** A qubit specifier is an index into the circuit's qubit list. *)
Definition resolve_qubit (qc : QuantumCircuit) (q : Z) : Result Z :=
  match Py.getitem (Py.range (qc_num_qubits qc)) q with
  | inr b => ok b
  | inl _ => raise CircuitError
  end.

Fixpoint resolve_qubits (qc : QuantumCircuit) (qs : list Z)
  : Result (list Z) :=
  match qs with
  | [] => ok []
  | q :: qs' =>
      b <- resolve_qubit qc q ;;
      bs <- resolve_qubits qc qs' ;;
      ok (b :: bs)
  end.

(** [qc.append(gate, qargs)]: the instruction goes to the end. *)
Definition append (gate : Gate ParameterValueType) (qargs : list Z)
           (qc : QuantumCircuit) : Result QuantumCircuit :=
  bs <- resolve_qubits qc qargs ;;
  ok (mkCircuit (qc_num_qubits qc) (data qc ++ [mkInstruction gate bs])).

Definition RXGate (theta : ParameterValueType) := mkGate "rx" 1 [theta].
Definition RYGate (theta : ParameterValueType) := mkGate "ry" 1 [theta].
Definition RZGate (theta : ParameterValueType) := mkGate "rz" 1 [theta].

Definition rx (theta : ParameterValueType) (qubit : Z) :=
  append (RXGate theta) [qubit].
Definition ry (theta : ParameterValueType) (qubit : Z) :=
  append (RYGate theta) [qubit].
Definition rz (theta : ParameterValueType) (qubit : Z) :=
  append (RZGate theta) [qubit].

End Qiskit.

Import Qiskit.

(** ** BasisEmbedding *)

Module BasisEmbedding.

Record t : Type := mk {
  num_qubits : Z;
  params : list ParameterExpression;
  circuit : QuantumCircuit
}.

(** The method reads [self.num_qubits] and [self.params]. *)
Definition create_circuit (num_qubits : Z)
           (params : list ParameterExpression) : Result QuantumCircuit :=
  qc <- new_circuit num_qubits ;;
  Py.for_each (Py.range num_qubits)
    (fun qubit qc =>
       p <- Py.getitem params qubit ;;
       rx (Expr (Mul PI p)) qubit qc)
    qc.

Definition __init__ (num_qubits : Z) : Result t :=
  if num_qubits <=? 0 then
    raise (QiskitError "num_qubits must be a positive integer.")
  else
    let params := ParameterVector "x" num_qubits in
    circuit <- create_circuit num_qubits params ;;
    ok (mk num_qubits params circuit).

Definition get_circuit (self : t) : QuantumCircuit := circuit self.

End BasisEmbedding.

(** ** DisplacementGate and DisplacementEmbedding *)

Definition Matrix : Type := list (list R).

Module DisplacementGate.

(** [super().__init__("D", 1, [a, phi])]. *)
Definition __init__ {P : Type} (a phi : P) : Gate P :=
  mkGate "D" 1 [a; phi].

(** The array [D_matrix] that [_define] builds from the two
    parameters. *)
Definition D_matrix (a phi : R) : Matrix :=
  [ [1; 0; 0];
    [2 * a * cos phi; 1; 0];
    [2 * a * sin phi; 0; 1] ]%R.

(** [_define] builds [D_matrix], hands it to [q.unitary] on qubit 0 of
    a fresh one-qubit circuit [q], and keeps that circuit as the
    definition of the gate.  [unitary] is the method of the host
    library; what it raises, [_define] raises.  Unpacking [self.params]
    into two names raises ValueError when there are not exactly two
    parameters. *)
Definition _define
           (unitary : Matrix -> Z -> QuantumCircuit -> Result QuantumCircuit)
           (self : Gate R) : Result QuantumCircuit :=
  match params self with
  | [a; phi] =>
      q <- new_circuit 1 ;;
      q <- unitary (D_matrix a phi) 0 q ;;
      ok q
  | _ => raise ValueError
  end.

(** [new_phi = (phi + np.pi) % (2 * np.pi)], in binary64. *)
Definition inverse (self : Gate Binary64.t) : Result (Gate Binary64.t) :=
  match params self with
  | [a; phi] =>
      new_phi <- Py.float_rem (Binary64.add phi Np.pi)
                              (Binary64.mul Binary64.two Np.pi) ;;
      ok (__init__ a new_phi)
  | _ => raise ValueError
  end.

End DisplacementGate.

Module DisplacementEmbedding.

Record t : Type := mk {
  num_qubits : Z;
  amplitude : bool;
  parameters : list ParameterExpression
}.

Definition __init__ (num_qubits : Z) (amplitude : bool) : Result t :=
  ok (mk num_qubits amplitude (ParameterVector "x" num_qubits)).

Definition create_circuit (self : t) : Result QuantumCircuit :=
  qc <- new_circuit (num_qubits self) ;;
  Py.for_each (Py.range (num_qubits self))
    (fun i qc =>
       '(amplitude, phase) <-
          (if amplitude self then
             p <- Py.getitem (parameters self) i ;;
             ok (Expr p, Float 0.1)
           else
             p <- Py.getitem (parameters self) i ;;
             ok (Float 0.1, Expr p)) ;;
       let displacement_gate := DisplacementGate.__init__ amplitude phase in
       append displacement_gate [i] qc)
    qc.

End DisplacementEmbedding.

(** ** SqueezingGate and SqueezingEmbedding *)

Module SqueezingGate.

(** [super().__init__("S", 1, [r, phi])]. *)
Definition __init__ {P : Type} (r phi : P) : Gate P :=
  mkGate "S" 1 [r; phi].

(** The array [M] that [_define] builds from the two parameters. *)
Definition M (r phi : R) : Matrix :=
  let cosh_r := cosh r in
  let sinh_r := sinh r in
  [ [1; 0; 0];
    [0; cosh_r - cos phi * sinh_r; - sin phi * sinh_r];
    [0; - sin phi * sinh_r; cosh_r + cos phi * sinh_r] ]%R.

(** As for the displacement gate: [M] goes to [q.unitary] on qubit 0
    of a fresh one-qubit circuit. *)
Definition _define
           (unitary : Matrix -> Z -> QuantumCircuit -> Result QuantumCircuit)
           (self : Gate R) : Result QuantumCircuit :=
  match params self with
  | [r; phi] =>
      q <- new_circuit 1 ;;
      q <- unitary (M r phi) 0 q ;;
      ok q
  | _ => raise ValueError
  end.

Definition inverse (self : Gate Binary64.t) : Result (Gate Binary64.t) :=
  match params self with
  | [r; phi] =>
      new_phi <- Py.float_rem (Binary64.add phi Np.pi)
                              (Binary64.mul Binary64.two Np.pi) ;;
      ok (__init__ r new_phi)
  | _ => raise ValueError
  end.

End SqueezingGate.

Module SqueezingEmbedding.

Record t : Type := mk {
  num_qubits : Z;
  amplitude : bool;
  parameters : list ParameterExpression
}.

Definition __init__ (num_qubits : Z) (amplitude : bool) : Result t :=
  ok (mk num_qubits amplitude (ParameterVector "x" num_qubits)).

Definition create_circuit (self : t) : Result QuantumCircuit :=
  qc <- new_circuit (num_qubits self) ;;
  Py.for_each (Py.range (num_qubits self))
    (fun i qc =>
       '(r, phi) <-
          (if amplitude self then
             p <- Py.getitem (parameters self) i ;;
             ok (Expr p, Float 0.1)
           else
             p <- Py.getitem (parameters self) i ;;
             ok (Float 0.1, Expr p)) ;;
       let squeezing_gate := SqueezingGate.__init__ r phi in
       append squeezing_gate [i] qc)
    qc.

End SqueezingEmbedding.

(** ** AngleEmbedding *)

Module AngleEmbedding.

Record t : Type := mk {
  gate_sequence : list Py.object;
  num_qubits : Z;
  repeat_parameters : bool
}.

Definition valid_gates : list string := ["RY"; "RZ"; "RX"].

(** [gate == s] for a string literal [s]. *)
Definition eq_str (gate : Py.object) (s : string) : bool :=
  match gate with
  | Py.PyStr g => String.eqb g s
  | _ => false
  end.

(** [gate in valid_gates]. *)
Definition in_valid_gates (gate : Py.object) : bool :=
  existsb (eq_str gate) valid_gates.

Definition __init__ (gate_sequence : Py.object) (num_qubits : Z)
           (repeat_parameters : bool) : Result t :=
  match gate_sequence with
  | Py.PyList gates =>
      if negb (forallb Py.isinstance_str gates) then
        raise (QiskitError "gate_sequence must be a list of strings.")
      else if num_qubits <=? 0 then
        raise (QiskitError "num_qubits must be a positive integer.")
      else if existsb (fun gate => negb (in_valid_gates gate)) gates then
        raise (QiskitError
                 "gate_sequence contains invalid gates. Valid gates are {'RY', 'RZ', 'RX'}.")
      else ok (mk gates num_qubits repeat_parameters)
  | _ => raise (QiskitError "gate_sequence must be a list of strings.")
  end.

(** The loop state is the running [index] and the circuit. *)
Definition _layer_sequence (self : t) : Result QuantumCircuit :=
  let layers := Py.len (gate_sequence self) in
  let x_length :=
    if repeat_parameters self then num_qubits self
    else num_qubits self * layers in
  let x := ParameterVector "x" x_length in
  circuit <- new_circuit (num_qubits self) ;;
  '(_, circuit) <-
     Py.for_each (gate_sequence self)
       (fun gate =>
          Py.for_each (Py.range (num_qubits self))
            (fun j '(index, circuit) =>
               param <- (if repeat_parameters self then Py.getitem x j
                         else Py.getitem x index) ;;
               circuit <-
                 (if eq_str gate "RY" then ry (Expr param) j circuit
                  else if eq_str gate "RZ" then rz (Expr param) j circuit
                  else if eq_str gate "RX" then rx (Expr param) j circuit
                  else ok circuit) ;;
               ok (if negb (repeat_parameters self) then index + 1
                   else index, circuit)))
       (0, circuit) ;;
  ok circuit.

End AngleEmbedding.

(** * Vocabulary of the properties *)

(** ** Instructions the schemes emit *)

(** The instruction the basis scheme puts on qubit [i]. *)
Definition basis_rx (i : Z) : CircuitInstruction :=
  mkInstruction (mkGate "rx" 1 [Expr (Mul PI (ParameterVectorElement "x" i))])
                [i].

(** The two parameters of the custom gate on qubit [i]: the selected
    one is [x[i]], the other is the literal 0.1. *)
Definition cv_params (amplitude : bool) (i : Z) : list ParameterValueType :=
  if amplitude then [Expr (ParameterVectorElement "x" i); Float 0.1]
  else [Float 0.1; Expr (ParameterVectorElement "x" i)].

(** Name of the gate that [_layer_sequence] appends for a kind. *)
Definition gate_name (kind : string) : string :=
  if String.eqb kind "RX" then "rx"
  else if String.eqb kind "RY" then "ry"
  else "rz".

(** The rotation of kind [kind] on qubit [j] with parameter [x[i]]. *)
Definition rotation (kind : string) (i j : Z) : CircuitInstruction :=
  mkInstruction
    (mkGate (gate_name kind) 1 [Expr (ParameterVectorElement "x" i)]) [j].

(** Layer [l] on: one block of [n] rotations per kind, qubits ascending
    within a block. *)
Fixpoint layers_from (rp : bool) (n : Z) (kinds : list string) (l : Z)
  : list CircuitInstruction :=
  match kinds with
  | [] => []
  | kind :: kinds' =>
      map (fun j => rotation kind (if rp then j else l * n + j) j)
          (Py.range n)
      ++ layers_from rp n kinds' (l + 1)
  end.

(** ** Parameter indices used by a circuit *)

(** The indices of the vector elements an instruction list refers to,
    in order of occurrence. *)
Fixpoint expr_indices (e : ParameterExpression) : list Z :=
  match e with
  | ParameterVectorElement _ i => [i]
  | Mul _ e' => expr_indices e'
  end.

Definition value_indices (p : ParameterValueType) : list Z :=
  match p with
  | Float _ => []
  | Expr e => expr_indices e
  end.

Definition param_indices (ops : list CircuitInstruction) : list Z :=
  flat_map (fun op => flat_map value_indices (params (operation op))) ops.

(** ** Gate kinds of the angle scheme *)

Definition valid_kind (kind : string) : Prop := In kind ["RX"; "RY"; "RZ"].

(** Membership of a kind in {RX, RY, RZ}, as a test. *)
Definition valid_kindb (kind : string) : bool :=
  existsb (String.eqb kind) ["RX"; "RY"; "RZ"].

Definition is_kind (o : Py.object) : bool :=
  match o with
  | Py.PyStr s => existsb (String.eqb s) ["RX"; "RY"; "RZ"]
  | _ => false
  end.

(** A non-empty sequence of strings each in {RX, RY, RZ}. *)
Definition nonempty_kind_sequence (o : Py.object) : bool :=
  match o with
  | Py.PyList items | Py.PyTuple items =>
      negb (Nat.eqb (List.length items) 0) && forallb is_kind items
  | _ => false
  end.

(** A list of strings each in {RX, RY, RZ}. *)
Definition kind_list (o : Py.object) : bool :=
  match o with
  | Py.PyList items => forallb is_kind items
  | _ => false
  end.

(** ** Matrices and angles *)

Definition row (i : nat) (M : Matrix) : list R := nth i M [].

Definition column (j : nat) (M : Matrix) : list R :=
  map (fun r => nth j r 0%R) M.

Definition is_3x3 (M : Matrix) : Prop :=
  List.length M = 3%nat /\ Forall (fun r => List.length r = 3%nat) M.



(** ** Floats in a range *)

(** [2 * np.pi], the modulus of the angle arithmetic. *)
Definition two_pi : Binary64.t := Binary64.mul Binary64.two Np.pi.

(** The largest mantissa of a binary64 number. *)
Definition max_mantissa : positive := 9007199254740991.

(** [r] is a zero or a finite number of sign [s] whose magnitude is at
    most [W * 2 ^ ew]. *)
Definition bounded_by (s : bool) (W : positive) (ew : Z) (r : spec_float)
  : Prop :=
  match r with
  | S754_zero s' => s' = s
  | S754_finite s' m e => s' = s /\ (F2R (Zpos m) e <= F2R (Zpos W) ew)%R
  | _ => False
  end.

(** [r] is [+0.0] or a positive finite number, at most [W * 2 ^ ew]. *)
Definition nonneg_at_most (W : positive) (ew : Z) (r : spec_float) : Prop :=
  match r with
  | S754_zero s => s = false
  | S754_finite s q e => s = false /\ (F2R (Zpos q) e <= F2R (Zpos W) ew)%R
  | _ => False
  end.


(** The floats [-3.1415926535897936], the neighbour of [-np.pi] away
    from zero, and [0.1]. *)
Definition below_minus_pi : Binary64.t :=
  S754_finite true 7074237752028441 (-51).


(** ** The host's [unitary] *)

(** The host library makes a gate of a matrix only when it is square
    and its dimension is a power of two. *)
Definition is_n_qubit_operator (M : Matrix) : bool :=
  let d := List.length M in
  forallb (fun r => Nat.eqb (List.length r) d) M &&
  Nat.eqb (2 ^ Nat.log2 d)%nat d.

(** A [unitary] that refuses every other matrix with ValueError. *)
Definition refuses_other_dimensions
           (unitary : Matrix -> Z -> QuantumCircuit -> Result QuantumCircuit)
  : Prop :=
  forall M q qc, is_n_qubit_operator M = false -> unitary M q qc = inl ValueError.

(** One such [unitary]: it checks the dimension and appends a gate named
    "unitary" on the qubit. *)
Definition dimension_checking_unitary (M : Matrix) (q : Z)
           (qc : QuantumCircuit) : Result QuantumCircuit :=
  if is_n_qubit_operator M then append (mkGate "unitary" 1 []) [q] qc
  else raise ValueError.

(** ** The inner loop of the angle scheme *)

(** The body of the inner loop of [_layer_sequence], with the length of
    the parameter vector [x] as an argument. *)
Definition inner_body (x_length : Z) (rp : bool) (gate : Py.object) (j : Z)
           (st : Z * QuantumCircuit) : Result (Z * QuantumCircuit) :=
  let x := ParameterVector "x" x_length in
  let '(index, circuit) := st in
  param <- (if rp then Py.getitem x j else Py.getitem x index) ;;
  circuit <-
    (if AngleEmbedding.eq_str gate "RY" then ry (Expr param) j circuit
     else if AngleEmbedding.eq_str gate "RZ" then rz (Expr param) j circuit
     else if AngleEmbedding.eq_str gate "RX" then rx (Expr param) j circuit
     else ok circuit) ;;
  ok (if negb rp then index + 1 else index, circuit).

(** ** Matrix algebra on lists of rows *)

Definition dot (u v : list R) : R :=
  fold_right Rplus 0%R (map (fun p => (fst p * snd p)%R) (combine u v)).

(** Product of two matrices: entry [(i, j)] is row [i] of [A] times
    column [j] of [B]. *)
Definition mat_mul (A B : Matrix) : Matrix :=
  map (fun r =>
         map (fun j => dot r (column j B))
             (seq 0 (List.length (row 0 B))))
      A.


(** ** Shape of the instructions of a circuit *)

(** The instruction acts on one qubit of an [n]-qubit circuit. *)
Definition on_one_qubit (n : Z) (op : CircuitInstruction) : Prop :=
  exists j, qubits op = [j] /\ 0 <= j < n.

(** A one-qubit rotation [rx], [ry] or [rz] on a qubit of the circuit
    whose only parameter is an element [x[i]] of a vector of [x_length]
    elements. *)
Definition well_formed_rotation (n x_length : Z) (op : CircuitInstruction)
  : Prop :=
  In (name (operation op)) ["rx"; "ry"; "rz"] /\
  num_qubits (operation op) = 1 /\
  on_one_qubit n op /\
  exists i, params (operation op) = [Expr (ParameterVectorElement "x" i)] /\
            0 <= i < x_length.

(** What is left of an instruction when its parameters are set aside. *)
Definition skeleton (op : CircuitInstruction) : string * list Z :=
  (name (operation op), qubits op).

(** The same instruction with the order of its parameters reversed. *)
Definition swap_params (op : CircuitInstruction) : CircuitInstruction :=
  mkInstruction
    (mkGate (name (operation op)) (num_qubits (operation op))
            (rev (params (operation op))))
    (qubits op).

(** The same instruction under another gate name. *)
Definition rename (new_name : string) (op : CircuitInstruction)
  : CircuitInstruction :=
  mkInstruction
    (mkGate new_name (num_qubits (operation op)) (params (operation op)))
    (qubits op).

(** * Properties *)

(** ** Ranges, indexing and loops *)

Section PyFacts.

Lemma len_range (n : Z) : 0 <= n -> Py.len (Py.range n) = n.
Proof.
  intros Hn. unfold Py.len, Py.range.
  rewrite length_map, length_seq. lia.
Qed.

Lemma in_range (n j : Z) : In j (Py.range n) <-> 0 <= j < n.
Proof.
  unfold Py.range. rewrite in_map_iff. split.
  - intros [k [<- Hk]]. apply in_seq in Hk. lia.
  - intros Hj. exists (Z.to_nat j). split; [lia|]. apply in_seq. lia.
Qed.

Lemma nth_error_range (n j : Z) :
  0 <= j < n -> nth_error (Py.range n) (Z.to_nat j) = Some j.
Proof.
  intros Hj. unfold Py.range.
  rewrite nth_error_map, nth_error_seq.
  replace (Z.to_nat j <? Z.to_nat n)%nat with true
    by (symmetry; apply Nat.ltb_lt; lia).
  simpl. f_equal. lia.
Qed.

Lemma NoDup_range (n : Z) : NoDup (Py.range n).
Proof.
  unfold Py.range. apply Injective_map_NoDup.
  - intros a b Hab. lia.
  - apply seq_NoDup.
Qed.

Lemma len_map {A B : Type} (f : A -> B) (l : list A) :
  Py.len (map f l) = Py.len l.
Proof. unfold Py.len. now rewrite length_map. Qed.

(** Indexing a list at a position in range returns that element. *)
Lemma getitem_nth {A : Type} (l : list A) (i : Z) (a : A) :
  0 <= i -> nth_error l (Z.to_nat i) = Some a -> Py.getitem l i = ok a.
Proof.
  intros Hi Hnth. unfold Py.getitem.
  assert (Hlt : i < Py.len l).
  { unfold Py.len.
    assert (Z.to_nat i < List.length l)%nat
      by (apply nth_error_Some; congruence).
    lia. }
  replace (i <? 0) with false by (symmetry; apply Z.ltb_ge; lia).
  replace (0 <=? i) with true by (symmetry; apply Z.leb_le; lia).
  replace (i <? Py.len l) with true by (symmetry; apply Z.ltb_lt; lia).
  simpl. now rewrite Hnth.
Qed.

Lemma getitem_range (n j : Z) :
  0 <= j < n -> Py.getitem (Py.range n) j = ok j.
Proof.
  intros Hj. apply getitem_nth; [lia|]. now apply nth_error_range.
Qed.

Lemma getitem_ParameterVector (name : string) (n j : Z) :
  0 <= j < n ->
  Py.getitem (ParameterVector name n) j = ok (ParameterVectorElement name j).
Proof.
  intros Hj. apply getitem_nth; [lia|]. unfold ParameterVector.
  rewrite nth_error_map, nth_error_range by lia. reflexivity.
Qed.

Lemma for_each_cons {A S : Type} (a : A) (l : list A)
      (body : A -> S -> Result S) (s : S) :
  Py.for_each (a :: l) body s = (s' <- body a s ;; Py.for_each l body s').
Proof. reflexivity. Qed.

(** Reading a list of known length by position. *)
Lemma nth_error_map_range {B : Type} (f : Z -> B) (n j : Z) :
  0 <= j < n -> nth_error (map f (Py.range n)) (Z.to_nat j) = Some (f j).
Proof.
  intros Hj. rewrite nth_error_map, nth_error_range by lia. reflexivity.
Qed.

End PyFacts.

(** ** Appending gates to a circuit *)

Section CircuitFacts.

Lemma append_one (gate : Gate ParameterValueType) (q : Z)
      (qc : QuantumCircuit) :
  0 <= q < qc_num_qubits qc ->
  append gate [q] qc =
  ok (mkCircuit (qc_num_qubits qc)
                (data qc ++ [mkInstruction gate [q]])).
Proof.
  intros Hq. unfold append. simpl. unfold resolve_qubit.
  rewrite getitem_range by assumption. reflexivity.
Qed.

(** A loop whose body appends exactly one instruction per element. *)
Lemma for_each_emit (n : Z) (f : Z -> CircuitInstruction)
      (body : Z -> QuantumCircuit -> Result QuantumCircuit) :
  forall (js : list Z) (qc : QuantumCircuit),
    (forall j c, In j js -> qc_num_qubits c = n ->
                 body j c = ok (mkCircuit n (data c ++ [f j]))) ->
    qc_num_qubits qc = n ->
    Py.for_each js body qc = ok (mkCircuit n (data qc ++ map f js)).
Proof.
  induction js as [|j js IH]; intros qc Hbody Hn.
  - simpl. rewrite app_nil_r. destruct qc; simpl in *. now subst.
  - simpl. rewrite (Hbody j qc) by (simpl; auto). simpl.
    rewrite IH.
    + simpl. rewrite <- app_assoc. reflexivity.
    + intros k c Hk Hc. apply Hbody; simpl; auto.
    + reflexivity.
Qed.

End CircuitFacts.

(** ** BasisEmbedding *)

Lemma basis_create_circuit (n : Z) :
  0 <= n ->
  BasisEmbedding.create_circuit n (ParameterVector "x" n) =
  ok (mkCircuit n (map basis_rx (Py.range n))).
Proof.
  intros Hn. unfold BasisEmbedding.create_circuit, new_circuit.
  replace (n <? 0) with false by (symmetry; apply Z.ltb_ge; lia).
  simpl.
  rewrite (for_each_emit n basis_rx); [reflexivity| |reflexivity].
  intros j c Hj Hc. apply in_range in Hj.
  rewrite getitem_ParameterVector by assumption. simpl.
  unfold rx. rewrite append_one by lia. now rewrite Hc.
Qed.

(** C2.  For every positive [num_qubits] the basis scheme is constructed
    without error and its circuit holds exactly [num_qubits] operations;
    the operation at position [i] is the one-qubit gate [rx] on qubit [i]
    whose only parameter is the expression [pi * x[i]]. *)
Theorem basis_circuit_spec (n : Z) :
  0 < n ->
  exists e,
    BasisEmbedding.__init__ n = inr e /\
    Py.len (data (BasisEmbedding.get_circuit e)) = n /\
    forall i, 0 <= i < n ->
      nth_error (data (BasisEmbedding.get_circuit e)) (Z.to_nat i) =
      Some (mkInstruction
              (mkGate "rx" 1 [Expr (Mul PI (ParameterVectorElement "x" i))])
              [i]).
Proof.
  intros Hn. unfold BasisEmbedding.__init__.
  replace (n <=? 0) with false by (symmetry; apply Z.leb_gt; lia).
  rewrite basis_create_circuit by lia. simpl.
  eexists. split; [reflexivity|]. simpl. split.
  - rewrite len_map. apply len_range. lia.
  - intros i Hi. now rewrite nth_error_map_range.
Qed.

Lemma basis_circuit_spec_witness :
  exists e,
    BasisEmbedding.__init__ 3 = inr e /\
    Py.len (data (BasisEmbedding.get_circuit e)) = 3.
Proof.
  destruct (basis_circuit_spec 3) as [e [Hinit [Hlen _]]]; [lia|].
  exists e. split; assumption.
Defined.

(** ** DisplacementEmbedding and SqueezingEmbedding *)

Lemma displacement_create_circuit (n : Z) (amplitude : bool) :
  0 <= n ->
  DisplacementEmbedding.create_circuit
    (DisplacementEmbedding.mk n amplitude (ParameterVector "x" n)) =
  ok (mkCircuit n
        (map (fun i => mkInstruction (mkGate "D" 1 (cv_params amplitude i)) [i])
             (Py.range n))).
Proof.
  intros Hn. unfold DisplacementEmbedding.create_circuit, new_circuit. simpl.
  replace (n <? 0) with false by (symmetry; apply Z.ltb_ge; lia).
  simpl.
  erewrite for_each_emit; [reflexivity| |reflexivity].
  intros j c Hj Hc. apply in_range in Hj.
  rewrite getitem_ParameterVector by assumption.
  destruct amplitude; simpl; rewrite append_one by lia; now rewrite Hc.
Qed.

Lemma squeezing_create_circuit (n : Z) (amplitude : bool) :
  0 <= n ->
  SqueezingEmbedding.create_circuit
    (SqueezingEmbedding.mk n amplitude (ParameterVector "x" n)) =
  ok (mkCircuit n
        (map (fun i => mkInstruction (mkGate "S" 1 (cv_params amplitude i)) [i])
             (Py.range n))).
Proof.
  intros Hn. unfold SqueezingEmbedding.create_circuit, new_circuit. simpl.
  replace (n <? 0) with false by (symmetry; apply Z.ltb_ge; lia).
  simpl.
  erewrite for_each_emit; [reflexivity| |reflexivity].
  intros j c Hj Hc. apply in_range in Hj.
  rewrite getitem_ParameterVector by assumption.
  destruct amplitude; simpl; rewrite append_one by lia; now rewrite Hc.
Qed.

(** C3.  For every positive [num_qubits] and either value of the
    selector, the displacement and the squeezing scheme each build a
    circuit whose operations are exactly one custom gate per qubit, in
    ascending qubit order: the gate on qubit [i] has parameters
    [(x[i], 0.1)] when the amplitude is parameterised and [(0.1, x[i])]
    otherwise. *)
Theorem cv_embedding_circuit_spec (n : Z) (amplitude : bool) :
  0 < n ->
  exists d qd s qs,
    DisplacementEmbedding.__init__ n amplitude = inr d /\
    DisplacementEmbedding.create_circuit d = inr qd /\
    SqueezingEmbedding.__init__ n amplitude = inr s /\
    SqueezingEmbedding.create_circuit s = inr qs /\
    Py.len (data qd) = n /\
    Py.len (data qs) = n /\
    data qd =
      map (fun i =>
             mkInstruction
               (mkGate "D" 1
                  (if amplitude
                   then [Expr (ParameterVectorElement "x" i); Float 0.1]
                   else [Float 0.1; Expr (ParameterVectorElement "x" i)]))
               [i])
          (Py.range n) /\
    data qs =
      map (fun i =>
             mkInstruction
               (mkGate "S" 1
                  (if amplitude
                   then [Expr (ParameterVectorElement "x" i); Float 0.1]
                   else [Float 0.1; Expr (ParameterVectorElement "x" i)]))
               [i])
          (Py.range n).
Proof.
  intros Hn. do 4 eexists.
  split; [reflexivity|].
  split; [apply displacement_create_circuit; lia|].
  split; [reflexivity|].
  split; [apply squeezing_create_circuit; lia|].
  simpl. rewrite !len_map, len_range by lia.
  repeat split; reflexivity.
Qed.

Lemma cv_embedding_circuit_spec_witness :
  exists qd qs,
    (d <- DisplacementEmbedding.__init__ 3 true ;;
     DisplacementEmbedding.create_circuit d) = inr qd /\
    (s <- SqueezingEmbedding.__init__ 3 true ;;
     SqueezingEmbedding.create_circuit s) = inr qs /\
    Py.len (data qd) = 3 /\ Py.len (data qs) = 3.
Proof.
  destruct (cv_embedding_circuit_spec 3 true)
    as (d & qd & s & qs & Hd & Hqd & Hs & Hqs & Hld & Hls & _); [lia|].
  exists qd, qs. rewrite Hd, Hs. simpl. auto.
Defined.

(** The circuits of the README example, [num_qubits = 3]. *)
Example displacement_three_qubits :
  DisplacementEmbedding.create_circuit
    (DisplacementEmbedding.mk 3 true (ParameterVector "x" 3)) =
  ok (mkCircuit 3
        [ mkInstruction
            (mkGate "D" 1 [Expr (ParameterVectorElement "x" 0); Float 0.1]) [0];
          mkInstruction
            (mkGate "D" 1 [Expr (ParameterVectorElement "x" 1); Float 0.1]) [1];
          mkInstruction
            (mkGate "D" 1 [Expr (ParameterVectorElement "x" 2); Float 0.1]) [2] ]).
Proof. now rewrite displacement_create_circuit. Qed.

(** ** The custom gates: matrices *)

Lemma bind_ok {A : Type} (m : Result A) : (x <- m ;; ok x) = m.
Proof. destruct m; reflexivity. Qed.

(** [_define] returns what [unitary] returns on the matrix, qubit 0
    and an empty one-qubit circuit. *)
Lemma displacement_define_hands_over
      (unitary : Matrix -> Z -> QuantumCircuit -> Result QuantumCircuit)
      (a phi : R) :
  DisplacementGate._define unitary (DisplacementGate.__init__ a phi) =
  unitary (DisplacementGate.D_matrix a phi) 0 (mkCircuit 1 []).
Proof. apply bind_ok. Qed.

Lemma squeezing_define_hands_over
      (unitary : Matrix -> Z -> QuantumCircuit -> Result QuantumCircuit)
      (r phi : R) :
  SqueezingGate._define unitary (SqueezingGate.__init__ r phi) =
  unitary (SqueezingGate.M r phi) 0 (mkCircuit 1 []).
Proof. apply bind_ok. Qed.

(** The claim as worded also asks column 0 of the displacement matrix
    to be [1, 0, 0]; at magnitude 1 and angle 0 the matrix handed to
    [unitary] has [1, 2, 0] there. *)
Lemma displacement_column0_counterexample :
  ~ (let D := DisplacementGate.D_matrix 1 0 in
     let S := SqueezingGate.M 1 0 in
     is_3x3 D /\ is_3x3 S /\
     row 0 D = [1; 0; 0]%R /\ column 0 D = [1; 0; 0]%R /\
     row 0 S = [1; 0; 0]%R /\ column 0 S = [1; 0; 0]%R).
Proof.
  cbv zeta. intros (_ & _ & _ & Hcol & _).
  unfold column, DisplacementGate.D_matrix in Hcol. simpl in Hcol.
  injection Hcol as Hc _. rewrite cos_0 in Hc. lra.
Qed.

(** C4 (amended).  For all real [magnitude] and [angle], [_define] of
    either gate hands to [unitary], on qubit 0 of an empty one-qubit
    circuit, the 3x3 real matrix of the claim, entry by entry, and
    returns what [unitary] returns; row 0 of both matrices is
    [1, 0, 0]; column 0 is [1, 0, 0] for the squeezing matrix, and
    [1, 2 m cos(angle), 2 m sin(angle)] for the displacement matrix. *)
Theorem custom_gate_matrices (magnitude angle : R) :
  let D := DisplacementGate.D_matrix magnitude angle in
  let S := SqueezingGate.M magnitude angle in
  (forall unitary,
     DisplacementGate._define unitary
       (DisplacementGate.__init__ magnitude angle) =
     unitary D 0 (mkCircuit 1 [])) /\
  (forall unitary,
     SqueezingGate._define unitary
       (SqueezingGate.__init__ magnitude angle) =
     unitary S 0 (mkCircuit 1 [])) /\
  D = [ [1; 0; 0];
        [2 * magnitude * cos angle; 1; 0];
        [2 * magnitude * sin angle; 0; 1] ]%R /\
  S = [ [1; 0; 0];
        [0; cosh magnitude - cos angle * sinh magnitude;
            - sin angle * sinh magnitude];
        [0; - sin angle * sinh magnitude;
            cosh magnitude + cos angle * sinh magnitude] ]%R /\
  is_3x3 D /\ is_3x3 S /\
  row 0 D = [1; 0; 0]%R /\ row 0 S = [1; 0; 0]%R /\
  column 0 S = [1; 0; 0]%R /\
  column 0 D =
    [1; 2 * magnitude * cos angle; 2 * magnitude * sin angle]%R.
Proof.
  cbv zeta.
  split; [intros unitary; apply displacement_define_hands_over|].
  split; [intros unitary; apply squeezing_define_hands_over|].
  split; [reflexivity|]. split; [reflexivity|].
  unfold is_3x3, DisplacementGate.D_matrix, SqueezingGate.M. simpl.
  repeat split; auto.
Qed.

(** ** Binary64: values, rounding and the remainder *)

(** Powers of two. *)
Lemma bpow_pos (e : Z) : (0 < bpow e)%R.
Proof. apply powerRZ_lt. lra. Qed.

Lemma bpow_add (a b : Z) : bpow (a + b) = (bpow a * bpow b)%R.
Proof. apply powerRZ_add. lra. Qed.

Lemma bpow_IZR (n : Z) : 0 <= n -> bpow n = IZR (2 ^ n).
Proof.
  intros Hn. unfold bpow. destruct n as [|p|p]; try lia.
  - reflexivity.
  - simpl powerRZ. rewrite pow_IZR. f_equal.
    now rewrite positive_nat_Z.
Qed.

Lemma bpow_le (a b : Z) : a <= b -> (bpow a <= bpow b)%R.
Proof.
  intros Hab. replace b with (a + (b - a)) by lia.
  rewrite bpow_add, (bpow_IZR (b - a)) by lia.
  assert (H : 1 <= 2 ^ (b - a))
    by (assert (0 < 2 ^ (b - a)) by (apply Z.pow_pos_nonneg; lia); lia).
  apply IZR_le in H. pose proof (bpow_pos a). nra.
Qed.

Lemma bpow_lt_inv (a b : Z) : (bpow a < bpow b)%R -> a < b.
Proof.
  intros H. destruct (Z.lt_ge_cases a b) as [Hlt|Hge]; [exact Hlt|].
  apply bpow_le in Hge. lra.
Qed.

(** digits *)
(** The bit length of a mantissa. *)
Lemma digits2_pos_bounds (m : positive) :
  2 ^ (Zpos (digits2_pos m) - 1) <= Zpos m < 2 ^ Zpos (digits2_pos m).
Proof.
  induction m as [m IH|m IH|]; simpl digits2_pos.
  - rewrite Pos2Z.inj_succ.
    replace (Z.succ (Zpos (digits2_pos m)) - 1) with (Z.succ (Zpos (digits2_pos m) - 1)) by lia.
    rewrite !Z.pow_succ_r by lia. lia.
  - rewrite Pos2Z.inj_succ.
    replace (Z.succ (Zpos (digits2_pos m)) - 1) with (Z.succ (Zpos (digits2_pos m) - 1)) by lia.
    rewrite !Z.pow_succ_r by lia. lia.
  - simpl. lia.
Qed.

Lemma pos_iter_xO (m d : positive) :
  Zpos (Pos.iter xO m d) = Zpos m * 2 ^ Zpos d.
Proof.
  induction d as [|d IH] using Pos.peano_ind.
  - simpl. lia.
  - rewrite Pos.iter_succ, Pos2Z.inj_succ, Z.pow_succ_r by lia.
    rewrite Pos2Z.inj_xO, IH. lia.
Qed.

(** Shifting a mantissa right by [p] bits divides it by [2 ^ p]. *)
Lemma shr_1_m (mrs : shr_record) :
  0 <= shr_m mrs -> shr_m (shr_1 mrs) = shr_m mrs / 2.
Proof.
  destruct mrs as [m r s]. simpl. intros Hm.
  destruct m as [|p|p]; try lia.
  - reflexivity.
  - destruct p as [p|p|]; simpl shr_m.
    + apply Z.div_unique with 1; lia.
    + apply Z.div_unique with 0; lia.
    + reflexivity.
Qed.

Lemma iter_shr_1_m (p : positive) :
  forall mrs, 0 <= shr_m mrs ->
    shr_m (iter_pos shr_1 p mrs) = shr_m mrs / 2 ^ Zpos p.
Proof.
  induction p as [p IH|p IH|]; intros mrs Hm; simpl iter_pos.
  - assert (H1 : 0 <= shr_m (shr_1 mrs)) by (rewrite shr_1_m by lia; apply Z.div_pos; lia).
    assert (H2 : 0 <= shr_m (iter_pos shr_1 p (shr_1 mrs))) by (rewrite IH by lia; apply Z.div_pos; lia).
    rewrite IH, IH, shr_1_m by lia.
    rewrite !Z.div_div by lia. f_equal.
    rewrite <- Z.pow_add_r, <- Z.pow_succ_r by lia. f_equal. lia.
  - assert (H2 : 0 <= shr_m (iter_pos shr_1 p mrs)) by (rewrite IH by lia; apply Z.div_pos; lia).
    rewrite IH, IH by lia.
    rewrite !Z.div_div by lia. f_equal.
    rewrite <- Z.pow_add_r by lia. f_equal. lia.
  - rewrite shr_1_m by lia. reflexivity.
Qed.

Lemma F2R_shift (m e k : Z) : 0 <= k -> F2R (m * 2 ^ k) e = F2R m (e + k).
Proof.
  intros Hk. unfold F2R. rewrite mult_IZR, bpow_add, (bpow_IZR k) by lia. ring.
Qed.

Lemma F2R_le (a b e : Z) : a <= b -> (F2R a e <= F2R b e)%R.
Proof.
  intros H. unfold F2R. apply IZR_le in H. pose proof (bpow_pos e). nra.
Qed.

Lemma F2R_lt_inv (a b e : Z) : (F2R a e < F2R b e)%R -> a < b.
Proof.
  unfold F2R. intros H. apply lt_IZR. pose proof (bpow_pos e). nra.
Qed.

Lemma F2R_le_inv (a b e : Z) : (F2R a e <= F2R b e)%R -> a <= b.
Proof.
  unfold F2R. intros H. apply le_IZR. pose proof (bpow_pos e). nra.
Qed.

Lemma F2R_floor (m e k : Z) :
  0 <= m -> 0 <= k -> (F2R (m / 2 ^ k) (e + k) <= F2R m e)%R.
Proof.
  intros Hm Hk. rewrite <- F2R_shift by lia. apply F2R_le.
  assert (0 < 2 ^ k) by (apply Z.pow_pos_nonneg; lia).
  rewrite Z.mul_comm. apply Z.mul_div_le. lia.
Qed.

Lemma fexp_mono (a b : Z) : a <= b -> fexp prec emax a <= fexp prec emax b.
Proof. unfold fexp, emin. lia. Qed.

Lemma digits_lower (m : positive) (e : Z) :
  (bpow (Zpos (digits2_pos m) - 1 + e) <= F2R (Zpos m) e)%R.
Proof.
  pose proof (digits2_pos_bounds m) as [Hlo _].
  rewrite bpow_add, bpow_IZR by lia.
  apply IZR_le in Hlo. unfold F2R. pose proof (bpow_pos e). nra.
Qed.

Lemma digits_upper (m : positive) (e : Z) :
  (F2R (Zpos m) e < bpow (Zpos (digits2_pos m) + e))%R.
Proof.
  pose proof (digits2_pos_bounds m) as [_ Hhi].
  rewrite bpow_add, bpow_IZR by lia.
  apply IZR_lt in Hhi. unfold F2R. pose proof (bpow_pos e). nra.
Qed.

Lemma digits_le (m W : positive) (e ew : Z) :
  (F2R (Zpos m) e <= F2R (Zpos W) ew)%R ->
  Zpos (digits2_pos m) + e <= Zpos (digits2_pos W) + ew.
Proof.
  intros H. pose proof (digits_lower m e). pose proof (digits_upper W ew).
  assert (Hlt : (bpow (Zpos (digits2_pos m) - 1 + e)
                 < bpow (Zpos (digits2_pos W) + ew))%R) by lra.
  apply bpow_lt_inv in Hlt. lia.
Qed.

(** The next multiple of the unit in the last place stays below a
    representable bound. *)
(** Below a representable bound, the next multiple of the unit in the
    last place does not pass the bound. *)
Lemma round_up_below (m1 e' : Z) (W : positive) (ew : Z) :
  e' <= ew ->
  (F2R m1 e' < F2R (Zpos W) ew)%R ->
  (F2R (m1 + 1) e' <= F2R (Zpos W) ew)%R.
Proof.
  intros He H.
  assert (Hw : F2R (Zpos W) ew = F2R (Zpos W * 2 ^ (ew - e')) e').
  { rewrite F2R_shift by lia. f_equal. lia. }
  rewrite Hw in *. apply F2R_lt_inv in H. apply F2R_le. lia.
Qed.

Lemma round_nearest_even_cases (m : Z) (l : location) :
  round_nearest_even m l = m \/ round_nearest_even m l = m + 1.
Proof.
  unfold round_nearest_even.
  destruct l as [|[| |]]; auto. destruct (Z.even m); auto.
Qed.

Lemma shr_fexp_exact (m e : Z) :
  0 <= m ->
  let '(mrs, e') := shr_fexp prec emax m e loc_Exact in
  (e' = e /\ shr_m mrs = m /\ loc_of_shr_record mrs = loc_Exact) \/
  (e' = fexp prec emax (Zdigits2 m + e) /\ e < e' /\
   0 <= shr_m mrs /\ (F2R (shr_m mrs) e' <= F2R m e)%R).
Proof.
  intros Hm. unfold shr_fexp, shr.
  set (n := fexp prec emax (Zdigits2 m + e) - e) in *.
  destruct n as [|p|p] eqn:Hn.
  - left. auto.
  - right. simpl shr_record_of_loc.
    rewrite iter_shr_1_m by (simpl; lia). simpl shr_m.
    split; [lia|]. split; [lia|]. split; [apply Z.div_pos; lia|].
    apply F2R_floor; lia.
  - left. auto.
Qed.

Lemma bounded_facts (W : positive) (ew : Z) :
  bounded prec emax W ew = true ->
  fexp prec emax (Zpos (digits2_pos W) + ew) = ew /\ ew <= emax - prec.
Proof.
  unfold bounded, canonical_mantissa. intros H.
  apply andb_prop in H as [H1 H2].
  apply Z.eqb_eq in H1. apply Z.leb_le in H2. auto.
Qed.

(** Rounding a value below a representable bound gives a zero or a
    finite number that is at most the bound. *)
Lemma binary_round_aux_upper (s : bool) (mz : positive) (ez : Z)
      (W : positive) (ew : Z) :
  bounded prec emax W ew = true ->
  ez <= fexp prec emax (Zpos (digits2_pos mz) + ez) ->
  (F2R (Zpos mz) ez < F2R (Zpos W) ew)%R ->
  bounded_by s W ew (binary_round_aux prec emax s (Zpos mz) ez loc_Exact).
Proof.
  intros Hb He Hx.
  destruct (bounded_facts W ew Hb) as [Hcan Hmax].
  assert (Hdz : fexp prec emax (Zpos (digits2_pos mz) + ez) <= ew).
  { rewrite <- Hcan. apply fexp_mono. apply digits_le. lra. }
  unfold binary_round_aux.
  pose proof (shr_fexp_exact (Zpos mz) ez (Pos2Z.is_nonneg mz)) as H1.
  destruct (shr_fexp prec emax (Zpos mz) ez loc_Exact) as [mrs' e'].
  set (m2 := round_nearest_even (shr_m mrs') (loc_of_shr_record mrs')).
  assert (H2 : e' <= ew /\ 0 <= m2 /\ (F2R m2 e' <= F2R (Zpos W) ew)%R).
  { destruct H1 as [(-> & Hm & Hl)|(-> & Hlt & Hm & Hv)].
    - subst m2. rewrite Hm, Hl. simpl round_nearest_even.
      split; [lia|]. split; [lia|]. lra.
    - simpl Zdigits2. split; [exact Hdz|].
      destruct (round_nearest_even_cases (shr_m mrs') (loc_of_shr_record mrs'))
        as [E|E]; fold m2 in E; rewrite E.
      + split; [lia|]. simpl Zdigits2 in Hv. lra.
      + split; [lia|]. apply round_up_below; [exact Hdz|].
        simpl Zdigits2 in Hv. lra. }
  destruct H2 as (He' & Hm2 & Hv2).
  pose proof (shr_fexp_exact m2 e' Hm2) as H3.
  destruct (shr_fexp prec emax m2 e' loc_Exact) as [mrs'' e''].
  destruct H3 as [(-> & Hm & _)|(-> & Hlt & Hm & Hv)].
  - rewrite Hm. destruct m2 as [|q|q]; try lia.
    + reflexivity.
    + replace (e' <=? emax - prec) with true
        by (symmetry; apply Z.leb_le; lia).
      split; [reflexivity|exact Hv2].
  - destruct (shr_m mrs'') as [|q|q] eqn:Hq; try lia.
    + reflexivity.
    + destruct m2 as [|q2|q2]; try lia.
      { exfalso. unfold F2R in Hv. rewrite Rmult_0_l in Hv.
        pose proof (bpow_pos (fexp prec emax (Zdigits2 0 + e'))).
        assert (0 < IZR (Zpos q))%R by (apply IZR_lt; lia). nra. }
      simpl Zdigits2 in *.
      assert (Hd : fexp prec emax (Zpos (digits2_pos q2) + e') <= ew).
      { rewrite <- Hcan. apply fexp_mono. apply digits_le. exact Hv2. }
      replace (fexp prec emax (Zpos (digits2_pos q2) + e') <=? emax - prec)
        with true by (symmetry; apply Z.leb_le; lia).
      split; [reflexivity|]. lra.
Qed.

Lemma shl_align_spec (mx : positive) (ex ex' : Z) :
  let '(mz, ez) := shl_align mx ex ex' in
  ez <= ex /\ ez <= Z.max ex ex' /\ (ex' <= ex -> ez = ex') /\
  Zpos mz = Zpos mx * 2 ^ (ex - ez).
Proof.
  unfold shl_align. destruct (ex' - ex) as [|d|d] eqn:Hd.
  - replace (ex - ex) with 0 by lia. simpl. lia.
  - replace (ex - ex) with 0 by lia. simpl. lia.
  - rewrite pos_iter_xO. replace (ex - ex') with (Zpos d) by lia. lia.
Qed.

Lemma shl_align_value (mx : positive) (ex ex' : Z) :
  let '(mz, ez) := shl_align mx ex ex' in
  F2R (Zpos mz) ez = F2R (Zpos mx) ex.
Proof.
  pose proof (shl_align_spec mx ex ex') as H.
  destruct (shl_align mx ex ex') as [mz ez].
  destruct H as (Hle & _ & _ & ->).
  rewrite F2R_shift by lia. f_equal. lia.
Qed.

Lemma digits_eq (m m' : positive) (e e' : Z) :
  F2R (Zpos m) e = F2R (Zpos m') e' ->
  Zpos (digits2_pos m) + e = Zpos (digits2_pos m') + e'.
Proof.
  intros H.
  assert (Zpos (digits2_pos m) + e <= Zpos (digits2_pos m') + e')
    by (apply digits_le; lra).
  assert (Zpos (digits2_pos m') + e' <= Zpos (digits2_pos m) + e)
    by (apply digits_le; lra).
  lia.
Qed.

Lemma binary_round_upper (s : bool) (M : positive) (e : Z)
      (W : positive) (ew : Z) :
  bounded prec emax W ew = true ->
  (F2R (Zpos M) e < F2R (Zpos W) ew)%R ->
  bounded_by s W ew (binary_round prec emax s M e).
Proof.
  intros Hb Hx. unfold binary_round.
  pose proof (shl_align_spec M e (fexp prec emax (Zpos (digits2_pos M) + e)))
    as Hs.
  pose proof (shl_align_value M e (fexp prec emax (Zpos (digits2_pos M) + e)))
    as Hv.
  destruct (shl_align M e (fexp prec emax (Zpos (digits2_pos M) + e)))
    as [mz ez].
  destruct Hs as (Hle & Hmax & Hex & _).
  apply binary_round_aux_upper; [exact Hb| |rewrite Hv; exact Hx].
  rewrite (digits_eq mz M ez e Hv).
  destruct (Z.le_gt_cases (fexp prec emax (Zpos (digits2_pos M) + e)) e)
    as [H|H].
  - rewrite (Hex H). lia.
  - lia.
Qed.

Lemma binary_normalize_upper (m e : Z) (szero : bool)
      (W : positive) (ew : Z) :
  bounded prec emax W ew = true ->
  (F2R (Z.abs m) e < F2R (Zpos W) ew)%R ->
  match binary_normalize prec emax m e szero with
  | S754_zero s => m = 0 /\ s = szero \/ m <> 0 /\ s = (m <? 0)
  | S754_finite s q e' =>
      s = (m <? 0) /\ (F2R (Zpos q) e' <= F2R (Zpos W) ew)%R
  | _ => False
  end.
Proof.
  intros Hb Hx. destruct m as [|p|p]; simpl binary_normalize.
  - left. auto.
  - pose proof (binary_round_upper false p e W ew Hb Hx) as H.
    destruct (binary_round prec emax false p e); simpl in H; try contradiction.
    + right. split; [lia|]. now subst.
    + exact H.
  - pose proof (binary_round_upper true p e W ew Hb Hx) as H.
    destruct (binary_round prec emax true p e); simpl in H; try contradiction.
    + right. split; [lia|]. now subst.
    + exact H.
Qed.

Lemma aligned_values (mx my : positive) (ex ey : Z) :
  let ez := Z.min ex ey in
  F2R (Zpos (fst (shl_align mx ex ez))) ez = F2R (Zpos mx) ex /\
  F2R (Zpos (fst (shl_align my ey ez))) ez = F2R (Zpos my) ey.
Proof.
  intros ez.
  pose proof (shl_align_spec mx ex ez) as Hx.
  pose proof (shl_align_value mx ex ez) as Vx.
  pose proof (shl_align_spec my ey ez) as Hy.
  pose proof (shl_align_value my ey ez) as Vy.
  destruct (shl_align mx ex ez) as [mx' ex'].
  destruct (shl_align my ey ez) as [my' ey'].
  destruct Hx as (_ & _ & Ex & _). destruct Hy as (_ & _ & Ey & _).
  simpl fst. rewrite <- Vx, <- Vy.
  rewrite Ex, Ey by (subst ez; lia). auto.
Qed.

(** [fmod] by a finite divisor is a zero or a finite number with the
    sign of the dividend, at most the divisor in magnitude. *)
Lemma fmod_finite (sx sy : bool) (mx W : positive) (ex ew : Z) :
  bounded prec emax W ew = true ->
  match Binary64.fmod (S754_finite sx mx ex) (S754_finite sy W ew) with
  | S754_zero _ => True
  | S754_finite s q e => s = sx /\ (F2R (Zpos q) e <= F2R (Zpos W) ew)%R
  | _ => False
  end.
Proof.
  intros Hb. unfold Binary64.fmod. cbv zeta.
  destruct (aligned_values mx W ex ew) as [Vx Vw].
  set (ez := Z.min ex ew) in *.
  set (X := Zpos (fst (shl_align mx ex ez))) in *.
  set (Y := Zpos (fst (shl_align W ew ez))) in *.
  assert (HY : 0 < Y) by (subst Y; lia).
  pose proof (Z.mod_pos_bound X Y HY) as HR.
  destruct (Z.eq_dec (X mod Y) 0) as [E0|N0].
  { rewrite E0. destruct sx; exact I. }
  assert (Habs : Z.abs (cond_Zopp sx (X mod Y)) = X mod Y)
    by (destruct sx; simpl; lia).
  pose proof (binary_normalize_upper (cond_Zopp sx (X mod Y)) ez sx W ew Hb)
    as H.
  rewrite Habs in H.
  assert (Hlt : (F2R (X mod Y) ez < F2R (Zpos W) ew)%R).
  { rewrite <- Vw. unfold F2R. pose proof (bpow_pos ez).
    assert (IZR (X mod Y) < IZR Y)%R by (apply IZR_lt; lia). nra. }
  specialize (H Hlt).
  destruct (binary_normalize prec emax (cond_Zopp sx (X mod Y)) ez sx);
    try contradiction; [exact I|].
  destruct H as [-> Hv]. split; [|exact Hv].
  destruct sx; simpl; [apply Z.ltb_lt|apply Z.ltb_ge]; lia.
Qed.

(** Adding the divisor to a negative remainder. *)
Lemma add_back (q W : positive) (e ew : Z) :
  bounded prec emax W ew = true ->
  (F2R (Zpos q) e <= F2R (Zpos W) ew)%R ->
  nonneg_at_most W ew (Binary64.add (S754_finite true q e) (S754_finite false W ew)).
Proof.
  intros Hb Hle. unfold Binary64.add, SFadd. cbv zeta.
  destruct (aligned_values q W e ew) as [Vq Vw].
  set (ez := Z.min e ew) in *.
  set (Q := Zpos (fst (shl_align q e ez))) in *.
  set (Y := Zpos (fst (shl_align W ew ez))) in *.
  change (cond_Zopp true Q) with (- Q). change (cond_Zopp false Y) with Y.
  assert (HQ : 0 < Q) by (subst Q; lia).
  assert (HQY : Q <= Y).
  { apply (F2R_le_inv Q Y ez). rewrite Vq, Vw. exact Hle. }
  pose proof (binary_normalize_upper (- Q + Y) ez false W ew Hb) as H.
  assert (Hlt : (F2R (Z.abs (- Q + Y)) ez < F2R (Zpos W) ew)%R).
  { rewrite <- Vw. rewrite Z.abs_eq by lia. unfold F2R.
    pose proof (bpow_pos ez).
    assert (IZR (- Q + Y) < IZR Y)%R by (apply IZR_lt; lia). nra. }
  specialize (H Hlt).
  destruct (binary_normalize prec emax (- Q + Y) ez false);
    try contradiction; unfold nonneg_at_most.
  - destruct H as [[_ ->]|[Hnz ->]]; [reflexivity|].
    apply Z.ltb_ge. lia.
  - destruct H as [-> Hv]. split; [apply Z.ltb_ge; lia|exact Hv].
Qed.

(** Python's [%] with a positive finite divisor. *)
(** The range of [%] by a positive finite divisor. *)
Lemma float_rem_range (v : Binary64.t) (W : positive) (ew : Z) :
  bounded prec emax W ew = true ->
  exists r,
    Py.float_rem v (S754_finite false W ew) = inr r /\
    match v with
    | S754_nan | S754_infinity _ => r = S754_nan
    | _ => nonneg_at_most W ew r
    end.
Proof.
  intros Hb. unfold Py.float_rem.
  change (Binary64.eqb (S754_finite false W ew) Binary64.zero) with false.
  cbv iota.
  destruct v as [s|s| |s m e].
  - eexists. split; reflexivity.
  - eexists. split; reflexivity.
  - eexists. split; reflexivity.
  - pose proof (fmod_finite s false m W e ew Hb) as H.
    destruct (Binary64.fmod (S754_finite s m e) (S754_finite false W ew))
      as [s'|s'| |s' q e']; try contradiction.
    + eexists. split; reflexivity.
    + destruct H as [-> Hv]. destruct s.
      * eexists. split; [reflexivity|]. now apply add_back.
      * eexists. split; [reflexivity|]. split; [reflexivity|exact Hv].
Qed.

Lemma bounded_mantissa (m : positive) (e : Z) :
  bounded prec emax m e = true -> Zpos m <= Zpos max_mantissa /\ e <= 971.
Proof.
  intros Hb. destruct (bounded_facts m e Hb) as [Hcan Hmax].
  pose proof (digits2_pos_bounds m) as [_ Hhi].
  assert (Hd : Zpos (digits2_pos m) <= 53)
    by (unfold fexp, emin, prec, emax in Hcan; lia).
  assert (2 ^ Zpos (digits2_pos m) <= 2 ^ 53)
    by (apply Z.pow_le_mono_r; lia).
  unfold emax, prec in Hmax. change (2 ^ 53) with 9007199254740992 in *.
  unfold max_mantissa. lia.
Qed.

Lemma bounded_value (m : positive) (e : Z) :
  bounded prec emax m e = true ->
  (F2R (Zpos m) e <= F2R (Zpos max_mantissa) 971)%R /\
  ((Zpos m <> Zpos max_mantissa \/ e <> 971) ->
   (F2R (Zpos m) e <= F2R (Zpos max_mantissa - 1) 971)%R).
Proof.
  intros Hb. destruct (bounded_mantissa m e Hb) as [Hm He].
  pose proof (bpow_le e 971 He) as Hbe. pose proof (bpow_pos e) as Hpe.
  split.
  - apply IZR_le in Hm. unfold F2R.
    assert (0 < IZR (Zpos m))%R by (apply IZR_lt; lia). nra.
  - intros Hne. destruct (Z.eq_dec e 971) as [->|Hlt].
    + apply F2R_le. lia.
    + assert (He' : e + 1 <= 971) by lia.
      pose proof (bpow_le (e + 1) 971 He') as Hb1.
      rewrite bpow_add in Hb1.
      replace (bpow 1) with 2%R in Hb1 by (unfold bpow; simpl; lra).
      unfold F2R. apply IZR_le in Hm. unfold max_mantissa in *.
      assert (0 < IZR (Zpos m))%R by (apply IZR_lt; lia).
      replace (IZR (9007199254740991 - 1)) with (IZR 9007199254740991 - 1)%R
        by (rewrite minus_IZR; reflexivity).
      nra.
Qed.

Lemma pi_small : (F2R 7074237752028440 (-51) < bpow 971)%R.
Proof.
  pose proof (digits_upper 7074237752028440 (-51)) as H.
  change (Zpos (digits2_pos 7074237752028440) + -51) with 2 in H.
  pose proof (bpow_le 2 971 ltac:(lia)). lra.
Qed.

Lemma bounded_max : bounded prec emax max_mantissa 971 = true.
Proof. reflexivity. Qed.

Lemma max_value_split :
  (F2R (Zpos max_mantissa - 1) 971 + bpow 971 = F2R (Zpos max_mantissa) 971)%R.
Proof.
  unfold F2R, max_mantissa. rewrite minus_IZR. ring.
Qed.

(** Adding [np.pi] to a finite float does not overflow. *)
Lemma add_pi_below_max (s : bool) (m : positive) (e : Z) :
  bounded prec emax m e = true ->
  (s = true \/ (F2R (Zpos m) e <= F2R (Zpos max_mantissa - 1) 971)%R) ->
  Binary64.is_finite (Binary64.add (S754_finite s m e) Np.pi) = true.
Proof.
  intros Hb Hcase. unfold Binary64.add, SFadd, Np.pi. cbv zeta.
  destruct (aligned_values m 7074237752028440 e (-51)) as [Vm Vp].
  set (ez := Z.min e (-51)) in *.
  set (M := Zpos (fst (shl_align m e ez))) in *.
  set (P := Zpos (fst (shl_align 7074237752028440 (-51) ez))) in *.
  change (cond_Zopp false P) with P.
  assert (HM : 0 < M) by (subst M; lia).
  assert (HP : 0 < P) by (subst P; lia).
  destruct (bounded_value m e Hb) as [Hle _].
  pose proof pi_small as Hpi. pose proof max_value_split as Hsplit.
  pose proof (bpow_pos 971) as H971. pose proof (bpow_pos ez) as Hez.
  pose proof (binary_normalize_upper (cond_Zopp s M + P) ez false
                max_mantissa 971 bounded_max) as H.
  assert (Hlt : (F2R (Z.abs (cond_Zopp s M + P)) ez
                 < F2R (Zpos max_mantissa) 971)%R).
  { assert (Hnn : (0 <= F2R (Zpos max_mantissa - 1) 971)%R).
    { unfold F2R, max_mantissa. simpl Z.sub.
      assert (0 < IZR 9007199254740990)%R by (apply IZR_lt; lia). nra. }
    destruct s;
      [change (cond_Zopp true M) with (- M)
      |change (cond_Zopp false M) with M].
    - assert (Habs : Z.abs (- M + P) < Z.max M P) by lia.
      apply IZR_lt in Habs.
      assert (Hmax : (F2R (Z.max M P) ez <= F2R (Zpos max_mantissa) 971)%R).
      { destruct (Z.max_spec M P) as [[_ ->]|[_ ->]].
        - rewrite Vp. lra.
        - rewrite Vm. exact Hle. }
      unfold F2R in *. nra.
    - destruct Hcase as [Hs|Hv]; [discriminate|].
      rewrite Z.abs_eq by lia.
      replace (F2R (M + P) ez) with (F2R M ez + F2R P ez)%R
        by (unfold F2R; rewrite plus_IZR; ring).
      rewrite Vm, Vp. lra. }
  specialize (H Hlt).
  destruct (binary_normalize prec emax (cond_Zopp s M + P) ez false);
    try contradiction; reflexivity.
Qed.

Lemma add_pi_finite (phi : Binary64.t) :
  Binary64.valid phi = true -> Binary64.is_finite phi = true ->
  Binary64.is_finite (Binary64.add phi Np.pi) = true.
Proof.
  intros Hv Hf. destruct phi as [s|s| |s m e]; try discriminate.
  - reflexivity.
  - simpl in Hv.
    destruct (bounded_value m e Hv) as [_ Hstrict].
    destruct (Z.eq_dec (Zpos m) (Zpos max_mantissa)) as [Em|Nm];
      [destruct (Z.eq_dec e 971) as [Ee|Ne]|].
    + injection Em as ->. subst e. destruct s; reflexivity.
    + apply add_pi_below_max; [exact Hv|]. right. apply Hstrict. now right.
    + apply add_pi_below_max; [exact Hv|]. right. apply Hstrict. now left.
Qed.



















(** ** The custom gates: inverse *)

Lemma two_pi_eq : two_pi = S754_finite false 7074237752028440 (-50).
Proof. vm_compute. reflexivity. Qed.

(** The remainder modulo [2 * np.pi] raises nothing; it is NaN for NaN
    and the infinities, and otherwise lies between [+0.0] and
    [2 * np.pi], both included. *)
Lemma float_rem_two_pi (v : Binary64.t) :
  exists r,
    Py.float_rem v (Binary64.mul Binary64.two Np.pi) = inr r /\
    match v with
    | S754_nan | S754_infinity _ => r = S754_nan
    | _ => nonneg_at_most 7074237752028440 (-50) r
    end.
Proof.
  change (Binary64.mul Binary64.two Np.pi) with two_pi. rewrite two_pi_eq.
  apply float_rem_range. reflexivity.
Qed.

Lemma displacement_inverse (m a : Binary64.t) :
  exists a',
    Py.float_rem (Binary64.add a Np.pi) (Binary64.mul Binary64.two Np.pi)
      = inr a' /\
    DisplacementGate.inverse (DisplacementGate.__init__ m a) =
    inr (DisplacementGate.__init__ m a').
Proof.
  destruct (float_rem_two_pi (Binary64.add a Np.pi)) as [r [Hr _]].
  exists r. split; [exact Hr|].
  unfold DisplacementGate.inverse.
  cbn [params DisplacementGate.__init__]. now rewrite Hr.
Qed.

Lemma squeezing_inverse (m a : Binary64.t) :
  exists a',
    Py.float_rem (Binary64.add a Np.pi) (Binary64.mul Binary64.two Np.pi)
      = inr a' /\
    SqueezingGate.inverse (SqueezingGate.__init__ m a) =
    inr (SqueezingGate.__init__ m a').
Proof.
  destruct (float_rem_two_pi (Binary64.add a Np.pi)) as [r [Hr _]].
  exists r. split; [exact Hr|].
  unfold SqueezingGate.inverse.
  cbn [params SqueezingGate.__init__]. now rewrite Hr.
Qed.

Lemma nonneg_at_most_value (W : positive) (ew : Z) (r : Binary64.t) :
  nonneg_at_most W ew r ->
  Binary64.is_finite r = true /\ Binary64.sign r = false /\
  (0 <= Binary64.value r <= F2R (Zpos W) ew)%R.
Proof.
  assert (HW : (0 < F2R (Zpos W) ew)%R).
  { unfold F2R. apply Rmult_lt_0_compat; [now apply IZR_lt | apply bpow_pos]. }
  destruct r as [s|s| |s q e]; simpl; try contradiction.
  - intros ->. repeat split; lra.
  - intros [-> Hle].
    assert (Hq : (0 < F2R (Zpos q) e)%R).
    { unfold F2R. apply Rmult_lt_0_compat; [now apply IZR_lt | apply bpow_pos]. }
    repeat split; lra.
Qed.

(** The angle of the inverse of a gate whose angle is a finite float. *)
Lemma inverse_angle_in_range (angle r : Binary64.t) :
  Binary64.valid angle = true ->
  Binary64.is_finite angle = true ->
  Py.float_rem (Binary64.add angle Np.pi) (Binary64.mul Binary64.two Np.pi)
    = inr r ->
  Binary64.is_finite r = true /\ Binary64.sign r = false /\
  (0 <= Binary64.value r <= Binary64.value two_pi)%R.
Proof.
  intros Hv Hf Hr.
  pose proof (add_pi_finite angle Hv Hf) as Hs.
  destruct (float_rem_two_pi (Binary64.add angle Np.pi)) as [r' [Hr' Hin]].
  rewrite Hr in Hr'. injection Hr' as <-.
  rewrite two_pi_eq.
  change (Binary64.value (S754_finite false 7074237752028440 (-50)))
    with (F2R (Zpos 7074237752028440) (-50)).
  apply nonneg_at_most_value.
  destruct (Binary64.add angle Np.pi); try discriminate Hs; exact Hin.
Qed.





(** The claim as worded puts the new angle strictly below [2 pi]; at
    angle [-3.1415926535897936] the code returns [2 * np.pi] itself,
    which is not below the modulus [2 * np.pi] it was reduced by. *)
Lemma inverse_angle_range_counterexample :
  ~ ((exists m' angle',
        DisplacementGate.inverse
          (DisplacementGate.__init__ Binary64.two below_minus_pi)
          = inr (mkGate "D" 1 [m'; angle']) /\
        (0 <= Binary64.value angle' < Binary64.value two_pi)%R) /\
     (exists m' angle',
        SqueezingGate.inverse
          (SqueezingGate.__init__ Binary64.two below_minus_pi)
          = inr (mkGate "S" 1 [m'; angle']) /\
        (0 <= Binary64.value angle' < Binary64.value two_pi)%R)).
Proof.
  intros [[m' [a' [H [_ Hlt]]]] _].
  vm_compute in H. injection H as <- <-.
  rewrite two_pi_eq in Hlt. exact (Rlt_irrefl _ Hlt).
Qed.

(** C10 (amended).  For every finite float [angle], negative or beyond
    [2 pi] included, and every [magnitude], the angle of the gate
    returned by [inverse] is a finite float with a clear sign bit in the
    closed interval from 0 to [2 * np.pi]. *)
Theorem custom_gate_inverse_angle_range (magnitude angle : Binary64.t) :
  Binary64.valid angle = true ->
  Binary64.is_finite angle = true ->
  (exists m' angle',
     DisplacementGate.inverse (DisplacementGate.__init__ magnitude angle) =
     inr (mkGate "D" 1 [m'; angle']) /\
     Binary64.is_finite angle' = true /\ Binary64.sign angle' = false /\
     (0 <= Binary64.value angle' <= Binary64.value two_pi)%R) /\
  (exists m' angle',
     SqueezingGate.inverse (SqueezingGate.__init__ magnitude angle) =
     inr (mkGate "S" 1 [m'; angle']) /\
     Binary64.is_finite angle' = true /\ Binary64.sign angle' = false /\
     (0 <= Binary64.value angle' <= Binary64.value two_pi)%R).
Proof.
  intros Hv Hf. split.
  - destruct (displacement_inverse magnitude angle) as [r [Hr Hinv]].
    exists magnitude, r. split; [exact Hinv|].
    now apply (inverse_angle_in_range angle).
  - destruct (squeezing_inverse magnitude angle) as [r [Hr Hinv]].
    exists magnitude, r. split; [exact Hinv|].
    now apply (inverse_angle_in_range angle).
Qed.

(** At angle [-3.1415926535897936] the upper end of the interval is
    reached. *)
Lemma custom_gate_inverse_angle_range_witness :
  Binary64.valid below_minus_pi = true /\
  Binary64.is_finite below_minus_pi = true /\
  ((exists m' angle',
      DisplacementGate.inverse
        (DisplacementGate.__init__ Binary64.two below_minus_pi) =
      inr (mkGate "D" 1 [m'; angle']) /\
      Binary64.is_finite angle' = true /\ Binary64.sign angle' = false /\
      (0 <= Binary64.value angle' <= Binary64.value two_pi)%R) /\
   (exists m' angle',
      SqueezingGate.inverse
        (SqueezingGate.__init__ Binary64.two below_minus_pi) =
      inr (mkGate "S" 1 [m'; angle']) /\
      Binary64.is_finite angle' = true /\ Binary64.sign angle' = false /\
      (0 <= Binary64.value angle' <= Binary64.value two_pi)%R)).
Proof.
  split; [reflexivity|]. split; [reflexivity|].
  apply (custom_gate_inverse_angle_range Binary64.two below_minus_pi);
    reflexivity.
Defined.








(** ** Validation of [num_qubits] at construction *)

Lemma basis_init_rejects (n : Z) :
  n <= 0 ->
  BasisEmbedding.__init__ n =
  inl (QiskitError "num_qubits must be a positive integer.").
Proof.
  intros Hn. unfold BasisEmbedding.__init__.
  replace (n <=? 0) with true by (symmetry; apply Z.leb_le; lia).
  reflexivity.
Qed.

Lemma angle_init_rejects_qubits (gate_sequence : Py.object) (n : Z)
      (rp : bool) :
  n <= 0 ->
  exists msg,
    AngleEmbedding.__init__ gate_sequence n rp = inl (QiskitError msg).
Proof.
  intros Hn. unfold AngleEmbedding.__init__.
  destruct gate_sequence; try (eexists; reflexivity).
  destruct (negb (forallb Py.isinstance_str items));
    [eexists; reflexivity|].
  replace (n <=? 0) with true by (symmetry; apply Z.leb_le; lia).
  eexists; reflexivity.
Qed.

(** The displacement and squeezing constructors have no such check:
    they build the object for any [num_qubits]. *)
Lemma cv_init_never_fails (n : Z) (amplitude : bool) :
  DisplacementEmbedding.__init__ n amplitude =
    inr (DisplacementEmbedding.mk n amplitude (ParameterVector "x" n)) /\
  SqueezingEmbedding.__init__ n amplitude =
    inr (SqueezingEmbedding.mk n amplitude (ParameterVector "x" n)).
Proof. split; reflexivity. Qed.

(** C7 (divergence).  The claim asks every scheme to fail at
    construction when [num_qubits] is zero or negative.  The
    displacement and squeezing constructors succeed at [num_qubits = 0]
    (and at [-1]); with [num_qubits = 0] their [create_circuit] returns
    an empty circuit and with [-1] it is [create_circuit], not the
    constructor, that raises.  The basis and the angle constructor raise
    QiskitError at [num_qubits = 0]. *)
Theorem cv_init_accepts_nonpositive_qubits :
  DisplacementEmbedding.__init__ 0 true =
    inr (DisplacementEmbedding.mk 0 true []) /\
  SqueezingEmbedding.__init__ 0 true =
    inr (SqueezingEmbedding.mk 0 true []) /\
  DisplacementEmbedding.__init__ (-1) true =
    inr (DisplacementEmbedding.mk (-1) true []) /\
  SqueezingEmbedding.__init__ (-1) true =
    inr (SqueezingEmbedding.mk (-1) true []) /\
  DisplacementEmbedding.create_circuit (DisplacementEmbedding.mk 0 true []) =
    inr (mkCircuit 0 []) /\
  SqueezingEmbedding.create_circuit (SqueezingEmbedding.mk 0 true []) =
    inr (mkCircuit 0 []) /\
  DisplacementEmbedding.create_circuit
    (DisplacementEmbedding.mk (-1) true []) = inl CircuitError /\
  SqueezingEmbedding.create_circuit
    (SqueezingEmbedding.mk (-1) true []) = inl CircuitError /\
  BasisEmbedding.__init__ 0 =
    inl (QiskitError "num_qubits must be a positive integer.") /\
  AngleEmbedding.__init__ (Py.PyList [Py.PyStr "RX"]) 0 false =
    inl (QiskitError "num_qubits must be a positive integer.").
Proof. repeat split; reflexivity. Qed.

(** ** Validation of [gate_sequence] at construction *)

Lemma is_kind_in_valid_gates (o : Py.object) :
  Py.isinstance_str o = true ->
  AngleEmbedding.in_valid_gates o = is_kind o.
Proof.
  destruct o; simpl; try discriminate. intros _.
  unfold AngleEmbedding.in_valid_gates. simpl.
  destruct (String.eqb s "RY"), (String.eqb s "RZ"), (String.eqb s "RX");
    reflexivity.
Qed.

Lemma is_kind_isinstance_str (o : Py.object) :
  is_kind o = true -> Py.isinstance_str o = true.
Proof. destruct o; simpl; congruence. Qed.

(** The empty list is not a non-empty sequence of kinds, and the
    constructor accepts it. *)
Lemma angle_empty_sequence_counterexample :
  ~ (nonempty_kind_sequence (Py.PyList []) = false ->
     exists msg,
       AngleEmbedding.__init__ (Py.PyList []) 2 false =
       inl (QiskitError msg)).
Proof.
  intros H. destruct (H eq_refl) as [msg Hmsg]. discriminate Hmsg.
Qed.

(** C8 (amended).  Construction of the angle scheme fails with
    QiskitError, so that no circuit is produced, for every
    [gate_sequence] that is not a list of strings each in {RX, RY, RZ},
    in particular one holding a kind outside that set; the empty list is
    accepted when [num_qubits] is positive, and its circuit has no
    operations. *)
Theorem angle_init_gate_sequence_validation
        (gate_sequence : Py.object) (n : Z) (rp : bool) :
  (kind_list gate_sequence = false ->
   exists msg,
     AngleEmbedding.__init__ gate_sequence n rp = inl (QiskitError msg)) /\
  (0 < n ->
   exists e,
     AngleEmbedding.__init__ (Py.PyList []) n rp = inr e /\
     AngleEmbedding._layer_sequence e = inr (mkCircuit n [])).
Proof.
  split.
  - intros Hbad. unfold AngleEmbedding.__init__.
    destruct gate_sequence; try (eexists; reflexivity).
    simpl in Hbad.
    destruct (forallb Py.isinstance_str items) eqn:Hstr; simpl;
      [|eexists; reflexivity].
    destruct (n <=? 0); [eexists; reflexivity|].
    assert (Hex : existsb (fun gate => negb (AngleEmbedding.in_valid_gates gate))
                          items = true).
    { clear - Hbad Hstr. induction items as [|o items IH]; simpl in *.
      - discriminate.
      - apply andb_prop in Hstr as [Ho Hitems].
        rewrite (is_kind_in_valid_gates o Ho).
        destruct (is_kind o); simpl in *; [now apply IH|reflexivity]. }
    rewrite Hex. eexists; reflexivity.
  - intros Hn. unfold AngleEmbedding.__init__. simpl.
    replace (n <=? 0) with false by (symmetry; apply Z.leb_gt; lia).
    eexists. split; [reflexivity|].
    unfold AngleEmbedding._layer_sequence, new_circuit. simpl.
    replace (n <? 0) with false by (symmetry; apply Z.ltb_ge; lia).
    reflexivity.
Qed.

Lemma angle_init_gate_sequence_validation_witness :
  (exists msg,
     AngleEmbedding.__init__ (Py.PyList [Py.PyStr "RX"; Py.PyStr "CX"]) 2 true =
     inl (QiskitError msg)) /\
  (exists e,
     AngleEmbedding.__init__ (Py.PyList []) 2 true = inr e /\
     AngleEmbedding._layer_sequence e = inr (mkCircuit 2 [])).
Proof.
  destruct (angle_init_gate_sequence_validation
              (Py.PyList [Py.PyStr "RX"; Py.PyStr "CX"]) 2 true)
    as [Hreject Haccept].
  split.
  - apply Hreject. reflexivity.
  - apply Haccept. lia.
Defined.

(** ** AngleEmbedding: the layered circuit *)

Section AngleLoop.

Variables (n x_length : Z).
Hypothesis n_pos : 0 < n.

Lemma inner_body_step (rp : bool) (kind : string) (j index : Z)
      (c : QuantumCircuit) :
  valid_kind kind -> 0 <= j < n -> qc_num_qubits c = n ->
  (rp = true -> n <= x_length) ->
  (rp = false -> 0 <= index < x_length) ->
  inner_body x_length rp (Py.PyStr kind) j (index, c) =
  ok (if rp then index else index + 1,
      mkCircuit n
        (data c ++ [rotation kind (if rp then j else index) j])).
Proof.
  intros Hkind Hj Hc Hrep Hindex. unfold inner_body.
  assert (Hparam :
            (if rp then Py.getitem (ParameterVector "x" x_length) j
             else Py.getitem (ParameterVector "x" x_length) index) =
            ok (ParameterVectorElement "x" (if rp then j else index))).
  { destruct rp; apply getitem_ParameterVector.
    - specialize (Hrep eq_refl). lia.
    - auto. }
  rewrite Hparam. cbn [bind ok].
  unfold valid_kind in Hkind. simpl in Hkind.
  destruct Hkind as [<-|[<-|[<-|[]]]]; simpl;
    unfold rx, ry, rz; rewrite append_one by lia; simpl;
    rewrite Hc; destruct rp; reflexivity.
Qed.

Lemma inner_loop_seq (rp : bool) (kind : string) :
  valid_kind kind -> (rp = true -> n <= x_length) ->
  forall (m s : nat) (index : Z) (c : QuantumCircuit),
    Z.of_nat (s + m) <= n -> qc_num_qubits c = n -> 0 <= index ->
    (rp = false -> index + Z.of_nat m <= x_length) ->
    Py.for_each (map Z.of_nat (seq s m)) (inner_body x_length rp (Py.PyStr kind))
                (index, c) =
    ok (if rp then index else index + Z.of_nat m,
        mkCircuit n
          (data c ++
           map (fun j => rotation kind
                           (if rp then j else index + (j - Z.of_nat s)) j)
               (map Z.of_nat (seq s m)))).
Proof.
  intros Hkind Hrep. induction m as [|m IH]; intros s index c Hs Hc Hi Hx.
  - simpl. rewrite app_nil_r, Z.add_0_r.
    destruct c as [q d]; simpl in Hc |- *. rewrite Hc.
    destruct rp; reflexivity.
  - simpl seq. simpl map. rewrite for_each_cons.
    rewrite inner_body_step; try assumption; try lia.
    2:{ intros Hrp. specialize (Hx Hrp). lia. }
    cbn [bind ok]. rewrite IH; cbn [qc_num_qubits data]; try lia.
    2:{ destruct rp; lia. }
    2:{ intros Hrp. rewrite Hrp. specialize (Hx Hrp). lia. }
    rewrite <- app_assoc. cbn [app].
    destruct rp; cbv beta iota; [reflexivity|].
    replace (index + (Z.of_nat s - Z.of_nat s)) with index by lia.
    replace (index + 1 + Z.of_nat m) with (index + Z.of_nat (S m)) by lia.
    rewrite (map_ext
               (fun j => rotation kind (index + 1 + (j - Z.of_nat (S s))) j)
               (fun j => rotation kind (index + (j - Z.of_nat s)) j))
      by (intros j; f_equal; lia).
    reflexivity.
Qed.

Lemma inner_loop (rp : bool) (kind : string) (index : Z)
      (c : QuantumCircuit) :
  valid_kind kind -> (rp = true -> n <= x_length) ->
  qc_num_qubits c = n -> 0 <= index ->
  (rp = false -> index + n <= x_length) ->
  Py.for_each (Py.range n) (inner_body x_length rp (Py.PyStr kind)) (index, c) =
  ok (if rp then index else index + n,
      mkCircuit n
        (data c ++
         map (fun j => rotation kind (if rp then j else index + j) j)
             (Py.range n))).
Proof.
  intros Hkind Hrep Hc Hi Hx. unfold Py.range.
  rewrite inner_loop_seq; try assumption; try lia.
  2:{ intros Hrp. specialize (Hx Hrp). lia. }
  rewrite Z2Nat.id by lia.
  destruct rp; cbv beta iota; [reflexivity|].
  rewrite (map_ext
             (fun j => rotation kind (index + (j - Z.of_nat 0)) j)
             (fun j => rotation kind (index + j) j))
    by (intros j; f_equal; lia).
  reflexivity.
Qed.

Lemma len_cons {A : Type} (a : A) (l : list A) :
  Py.len (a :: l) = Py.len l + 1.
Proof. unfold Py.len. simpl List.length. lia. Qed.

Lemma len_nonneg {A : Type} (l : list A) : 0 <= Py.len l.
Proof. unfold Py.len. lia. Qed.

Lemma outer_loop (rp : bool) :
  (rp = true -> n <= x_length) ->
  forall (kinds : list string) (l index : Z) (c : QuantumCircuit),
    Forall valid_kind kinds -> qc_num_qubits c = n -> 0 <= l ->
    0 <= index -> (rp = false -> index = l * n) ->
    (rp = false -> (l + Py.len kinds) * n <= x_length) ->
    Py.for_each (map Py.PyStr kinds)
                (fun gate => Py.for_each (Py.range n) (inner_body x_length rp gate))
                (index, c) =
    ok (if rp then index else index + Py.len kinds * n,
        mkCircuit n (data c ++ layers_from rp n kinds l)).
Proof.
  intros Hrep.
  induction kinds as [|kind kinds IH]; intros l index c Hk Hc Hl H0 Hi Hx.
  - simpl. rewrite app_nil_r. unfold Py.len. simpl. rewrite Z.add_0_r.
    destruct c as [q d]; simpl in Hc |- *. rewrite Hc.
    destruct rp; reflexivity.
  - apply Forall_cons_iff in Hk as [Hkind Hkinds].
    pose proof (len_cons kind kinds) as Hlen.
    pose proof (len_nonneg kinds) as Hnn.
    simpl map. rewrite for_each_cons.
    rewrite inner_loop; try assumption.
    2:{ intros Hrp. specialize (Hx Hrp). specialize (Hi Hrp). nia. }
    cbn [bind ok].
    rewrite (IH (l + 1)); cbn [qc_num_qubits data]; try assumption;
      try lia.
    2:{ destruct rp; lia. }
    2:{ intros Hrp. rewrite Hrp. rewrite Hi by assumption. lia. }
    2:{ intros Hrp. specialize (Hx Hrp). lia. }
    rewrite <- app_assoc. cbn [layers_from].
    destruct rp; cbv beta iota; [reflexivity|].
    rewrite Hi by reflexivity. rewrite Hlen.
    replace (l * n + n + Py.len kinds * n)
      with (l * n + (Py.len kinds + 1) * n) by lia.
    reflexivity.
Qed.

End AngleLoop.

(** ** AngleEmbedding: shape of the layered instruction list *)

Section LayerFacts.

Lemma seq_from (a b : nat) :
  map Z.of_nat (seq a b) =
  map (fun i => Z.of_nat a + i) (map Z.of_nat (seq 0 b)).
Proof.
  revert a. induction b as [|b IH]; intros a; [reflexivity|].
  simpl seq. simpl map. f_equal; [lia|].
  rewrite (IH (S a)), (IH 1%nat), !map_map.
  apply map_ext. intros i. lia.
Qed.

Lemma range_app (a b : Z) :
  0 <= a -> 0 <= b ->
  Py.range (a + b) =
  (Py.range a ++ map (fun i => a + i) (Py.range b))%list.
Proof.
  intros Ha Hb. unfold Py.range.
  rewrite Z2Nat.inj_add, seq_app, map_app by lia. f_equal.
  simpl plus. rewrite seq_from. apply map_ext. intros i. lia.
Qed.

Lemma param_indices_app (l1 l2 : list CircuitInstruction) :
  param_indices (l1 ++ l2) = (param_indices l1 ++ param_indices l2)%list.
Proof. unfold param_indices. apply flat_map_app. Qed.

Lemma param_indices_rotations (kind : string) (f : Z -> Z) (js : list Z) :
  param_indices (map (fun j => rotation kind (f j) j) js) = map f js.
Proof.
  induction js as [|j js IH]; [reflexivity|].
  simpl map. change (param_indices (rotation kind (f j) j :: ?l))
    with (f j :: param_indices l).
  now rewrite IH.
Qed.

Variables (n : Z).
Hypothesis n_pos : 0 < n.

Lemma len_layers_from (rp : bool) (kinds : list string) (l : Z) :
  Py.len (layers_from rp n kinds l) = n * Py.len kinds.
Proof.
  revert l. induction kinds as [|kind kinds IH]; intros l.
  - unfold Py.len. simpl. lia.
  - rewrite len_cons. simpl layers_from. unfold Py.len in *.
    rewrite length_app, length_map, Nat2Z.inj_add, IH.
    fold (Py.len (Py.range n)). rewrite len_range by lia. lia.
Qed.

Lemma nth_layers_from (rp : bool) :
  forall (kinds : list string) (l0 l j : Z) (kind : string),
    0 <= l -> nth_error kinds (Z.to_nat l) = Some kind -> 0 <= j < n ->
    nth_error (layers_from rp n kinds l0) (Z.to_nat (l * n + j)) =
    Some (rotation kind (if rp then j else (l0 + l) * n + j) j).
Proof.
  induction kinds as [|k kinds IH]; intros l0 l j kind Hl Hkind Hj.
  - destruct (Z.to_nat l); discriminate.
  - simpl layers_from.
    assert (Hblock :
              List.length
                (map (fun j => rotation k (if rp then j else l0 * n + j) j)
                     (Py.range n)) = Z.to_nat n).
    { unfold Py.range. now rewrite !length_map, length_seq. }
    destruct (Z.eq_dec l 0) as [->|Hnz].
    + simpl in Hkind. injection Hkind as ->.
      rewrite nth_error_app1 by (rewrite Hblock; lia).
      replace (0 * n + j) with j by lia.
      rewrite nth_error_map_range by lia.
      do 2 f_equal. destruct rp; [reflexivity|]. lia.
    + rewrite nth_error_app2 by (rewrite Hblock; nia).
      rewrite Hblock.
      replace (Z.to_nat (l * n + j) - Z.to_nat n)%nat
        with (Z.to_nat ((l - 1) * n + j)) by nia.
      replace (Z.to_nat l) with (S (Z.to_nat (l - 1))) in Hkind by lia.
      simpl in Hkind.
      rewrite (IH (l0 + 1) (l - 1) j kind) by (assumption || lia).
      do 2 f_equal. destruct rp; [reflexivity|]. lia.
Qed.

Lemma param_indices_fresh (kinds : list string) (l : Z) :
  param_indices (layers_from false n kinds l) =
  map (fun i => l * n + i) (Py.range (n * Py.len kinds)).
Proof.
  revert l. induction kinds as [|kind kinds IH]; intros l.
  - unfold Py.len. simpl. rewrite Z.mul_0_r. reflexivity.
  - simpl layers_from.
    rewrite param_indices_app, param_indices_rotations, IH, len_cons.
    pose proof (len_nonneg kinds).
    replace (n * (Py.len kinds + 1)) with (n + n * Py.len kinds) by lia.
    rewrite range_app, map_app, map_map by nia.
    f_equal. apply map_ext. intros i. lia.
Qed.

Lemma param_indices_repeated (kinds : list string) (l : Z) :
  param_indices (layers_from true n kinds l) =
  flat_map (fun _ => Py.range n) kinds.
Proof.
  revert l. induction kinds as [|kind kinds IH]; intros l; [reflexivity|].
  simpl layers_from. simpl flat_map.
  rewrite param_indices_app, IH. f_equal.
  rewrite (param_indices_rotations kind (fun j => j)). apply map_id.
Qed.

Lemma in_repeated_range (kinds : list string) (i : Z) :
  kinds <> [] ->
  In i (flat_map (fun _ : string => Py.range n) kinds) <-> 0 <= i < n.
Proof.
  intros Hne. rewrite in_flat_map, <- in_range. split.
  - intros [_ [_ Hi]]. exact Hi.
  - intros Hi. destruct kinds as [|kind kinds]; [congruence|].
    exists kind. split; [now left|exact Hi].
Qed.

End LayerFacts.

(** A list with the elements of [range n] has [n] distinct elements. *)
Lemma distinct_count (n : Z) (l : list Z) :
  (forall i, In i l <-> 0 <= i < n) ->
  List.length (nodup Z.eq_dec l) = Z.to_nat n.
Proof.
  intros Hl.
  rewrite (Permutation_length (l' := Py.range n)).
  - unfold Py.range. now rewrite length_map, length_seq.
  - apply NoDup_Permutation.
    + apply NoDup_nodup.
    + apply NoDup_range.
    + intros i. rewrite nodup_In, in_range. apply Hl.
Qed.

(** ** AngleEmbedding: construction and [_layer_sequence] *)

Lemma valid_kind_in_valid_gates (kind : string) :
  valid_kind kind -> AngleEmbedding.in_valid_gates (Py.PyStr kind) = true.
Proof.
  unfold valid_kind. simpl.
  intros [<-|[<-|[<-|[]]]]; reflexivity.
Qed.

Lemma angle_init_accepts (kinds : list string) (n : Z) (rp : bool) :
  Forall valid_kind kinds -> 0 < n ->
  AngleEmbedding.__init__ (Py.PyList (map Py.PyStr kinds)) n rp =
  ok (AngleEmbedding.mk (map Py.PyStr kinds) n rp).
Proof.
  intros Hk Hn. unfold AngleEmbedding.__init__.
  replace (forallb Py.isinstance_str (map Py.PyStr kinds)) with true.
  2:{ symmetry. apply forallb_forall. intros o Ho.
      apply in_map_iff in Ho as [k [<- _]]. reflexivity. }
  cbn [negb].
  replace (n <=? 0) with false by (symmetry; apply Z.leb_gt; lia).
  replace (existsb (fun gate => negb (AngleEmbedding.in_valid_gates gate))
                   (map Py.PyStr kinds)) with false.
  2:{ symmetry. induction Hk as [|k ks Hv _ IH]; [reflexivity|].
      simpl map. simpl existsb.
      rewrite (valid_kind_in_valid_gates k Hv). exact IH. }
  reflexivity.
Qed.

Lemma angle_layer_sequence (kinds : list string) (n : Z) (rp : bool) :
  Forall valid_kind kinds -> 0 < n ->
  AngleEmbedding._layer_sequence
    (AngleEmbedding.mk (map Py.PyStr kinds) n rp) =
  ok (mkCircuit n (layers_from rp n kinds 0)).
Proof.
  intros Hk Hn. unfold AngleEmbedding._layer_sequence, new_circuit.
  cbn [AngleEmbedding.gate_sequence AngleEmbedding.num_qubits
       AngleEmbedding.repeat_parameters].
  replace (n <? 0) with false by (symmetry; apply Z.ltb_ge; lia).
  cbn [bind ok].
  rewrite len_map.
  set (x_length := if rp then n else n * Py.len kinds).
  change (Py.for_each (map Py.PyStr kinds) _ (0, mkCircuit n []))
    with (Py.for_each (map Py.PyStr kinds)
            (fun gate => Py.for_each (Py.range n) (inner_body x_length rp gate))
            (0, mkCircuit n [])).
  assert (Hrep : rp = true -> n <= x_length)
    by (subst x_length; intros ->; lia).
  rewrite (outer_loop n x_length Hn rp Hrep kinds 0 0);
    try assumption; try reflexivity; try lia.
  subst x_length. intros ->. lia.
Qed.

Lemma valid_kindb_sound (kind : string) :
  valid_kindb kind = true -> valid_kind kind.
Proof.
  unfold valid_kindb, valid_kind. intros H.
  apply existsb_exists in H as [k [Hin Heq]].
  apply String.eqb_eq in Heq. now subst.
Qed.

Lemma forallb_valid_kinds (kinds : list string) :
  forallb valid_kindb kinds = true -> Forall valid_kind kinds.
Proof.
  intros H. apply Forall_forall. intros k Hk.
  apply valid_kindb_sound. rewrite forallb_forall in H. now apply H.
Qed.

(** C1.  For every valid configuration (a non-empty [gate_sequence] of
    strings from {RX, RY, RZ}, a positive [num_qubits], either value of
    [repeat_parameters]) the angle scheme is constructed and
    [_layer_sequence] returns a circuit with exactly
    [num_qubits * len(gate_sequence)] operations in layer-major,
    qubit-minor order: position [l * num_qubits + j] holds the rotation
    of the [l]-th kind on qubit [j], with parameter [x[j]] when
    repeating and [x[l * num_qubits + j]] otherwise.  Without repetition
    the indices used are [0 .. num_qubits * len(gate_sequence) - 1] in
    order, each once; with repetition the indices used are exactly the
    [num_qubits] values [0 .. num_qubits - 1]. *)
Theorem angle_layer_sequence_spec (kinds : list string) (n : Z) (rp : bool) :
  0 < Py.len kinds ->
  forallb valid_kindb kinds = true ->
  0 < n ->
  exists e qc,
    AngleEmbedding.__init__ (Py.PyList (map Py.PyStr kinds)) n rp = inr e /\
    AngleEmbedding._layer_sequence e = inr qc /\
    Py.len (data qc) = n * Py.len kinds /\
    (forall l j kind,
        0 <= l -> nth_error kinds (Z.to_nat l) = Some kind -> 0 <= j < n ->
        nth_error (data qc) (Z.to_nat (l * n + j)) =
        Some (mkInstruction
                (mkGate (gate_name kind) 1
                   [Expr (ParameterVectorElement "x"
                            (if rp then j else l * n + j))])
                [j])) /\
    (rp = false ->
     param_indices (data qc) = Py.range (n * Py.len kinds) /\
     NoDup (param_indices (data qc))) /\
    (rp = true ->
     (forall i, In i (param_indices (data qc)) <-> 0 <= i < n) /\
     List.length (nodup Z.eq_dec (param_indices (data qc))) = Z.to_nat n).
Proof.
  intros Hne Hvalid Hn.
  apply forallb_valid_kinds in Hvalid.
  exists (AngleEmbedding.mk (map Py.PyStr kinds) n rp).
  exists (mkCircuit n (layers_from rp n kinds 0)).
  split; [now apply angle_init_accepts|].
  split; [now apply angle_layer_sequence|].
  cbn [data].
  split; [apply len_layers_from; assumption|].
  split.
  { intros l j kind Hl Hkind Hj.
    rewrite (nth_layers_from n Hn rp kinds 0 l j kind) by assumption.
    reflexivity. }
  split.
  - intros ->.
    assert (Hidx : param_indices (layers_from false n kinds 0) =
                   Py.range (n * Py.len kinds)).
    { rewrite param_indices_fresh by assumption.
      rewrite <- (map_id (Py.range (n * Py.len kinds))) at 2.
      apply map_ext. intros i. lia. }
    split; [exact Hidx|]. rewrite Hidx. apply NoDup_range.
  - intros ->.
    assert (Hin : forall i,
               In i (param_indices (layers_from true n kinds 0)) <->
               0 <= i < n).
    { intros i. rewrite param_indices_repeated by assumption.
      apply in_repeated_range.
      intros ->. unfold Py.len in Hne. simpl in Hne. lia. }
    split; [exact Hin|]. now apply distinct_count.
Qed.

Lemma angle_layer_sequence_spec_witness :
  exists e qc,
    AngleEmbedding.__init__
      (Py.PyList (map Py.PyStr ["RY"; "RZ"; "RX"])) 2 false = inr e /\
    AngleEmbedding._layer_sequence e = inr qc /\
    Py.len (data qc) = 2 * Py.len ["RY"; "RZ"; "RX"].
Proof.
  destruct (angle_layer_sequence_spec ["RY"; "RZ"; "RX"] 2 false)
    as (e & qc & Hinit & Hrun & Hlen & _);
    [reflexivity | reflexivity | lia |].
  exists e, qc. repeat split; assumption.
Defined.

(** The circuit drawn in the class docstring: [['RY', 'RZ', 'RX']] on
    two qubits without repetition. *)
Example angle_docstring_circuit :
  AngleEmbedding._layer_sequence
    (AngleEmbedding.mk [Py.PyStr "RY"; Py.PyStr "RZ"; Py.PyStr "RX"] 2 false) =
  ok (mkCircuit 2
        [ rotation "RY" 0 0; rotation "RY" 1 1;
          rotation "RZ" 2 0; rotation "RZ" 3 1;
          rotation "RX" 4 0; rotation "RX" 5 1 ]).
Proof.
  apply (angle_layer_sequence ["RY"; "RZ"; "RX"] 2 false).
  - apply forallb_valid_kinds. reflexivity.
  - lia.
Qed.

(** The same kinds with [repeat_parameters = True]. *)
Example angle_docstring_circuit_repeated :
  AngleEmbedding._layer_sequence
    (AngleEmbedding.mk [Py.PyStr "RY"; Py.PyStr "RZ"; Py.PyStr "RX"] 2 true) =
  ok (mkCircuit 2
        [ rotation "RY" 0 0; rotation "RY" 1 1;
          rotation "RZ" 0 0; rotation "RZ" 1 1;
          rotation "RX" 0 0; rotation "RX" 1 1 ]).
Proof.
  apply (angle_layer_sequence ["RY"; "RZ"; "RX"] 2 true).
  - apply forallb_valid_kinds. reflexivity.
  - lia.
Qed.

(** * Further properties of the custom gates *)

Lemma cons_eq {A : Type} (x y : A) (l l' : list A) :
  x = y -> l = l' -> x :: l = y :: l'.
Proof. intros -> ->. reflexivity. Qed.

(** Splits an equation between two explicit matrices into one
    equation per entry. *)
Ltac by_entries :=
  unfold mat_mul, dot, column, row; cbn [map combine fold_right nth seq
    List.length fst snd];
  repeat apply cons_eq; try reflexivity.


(** X9.  The product of two displacement matrices is again of the
    displacement form, with the two displacement columns added; hence
    displacement matrices commute. *)
Theorem displacement_matrices_compose (a1 phi1 a2 phi2 : R) :
  let M1 := DisplacementGate.D_matrix a1 phi1 in
  let M2 := DisplacementGate.D_matrix a2 phi2 in
  mat_mul M1 M2 =
    [ [1; 0; 0];
      [2 * a1 * cos phi1 + 2 * a2 * cos phi2; 1; 0];
      [2 * a1 * sin phi1 + 2 * a2 * sin phi2; 0; 1] ]%R /\
  mat_mul M2 M1 = mat_mul M1 M2.
Proof.
  cbv zeta. unfold DisplacementGate.D_matrix.
  split; by_entries; ring.
Qed.

(** ** [_define] under a dimension-checking host *)

Lemma three_rows_refused (r0 r1 r2 : list R) :
  is_n_qubit_operator [r0; r1; r2] = false.
Proof.
  unfold is_n_qubit_operator. cbv zeta.
  apply andb_false_intro2. reflexivity.
Qed.

(** X22.  When the host's [unitary] refuses with ValueError every
    matrix whose dimension is not a power of two, [_define] of either
    custom gate raises ValueError whatever the two parameters are: the
    matrix it hands over has three rows. *)
Theorem custom_gate_define_raises
        (unitary : Matrix -> Z -> QuantumCircuit -> Result QuantumCircuit)
        (magnitude angle : R) :
  refuses_other_dimensions unitary ->
  DisplacementGate._define unitary (DisplacementGate.__init__ magnitude angle)
    = inl ValueError /\
  SqueezingGate._define unitary (SqueezingGate.__init__ magnitude angle)
    = inl ValueError.
Proof.
  intros Hhost. split.
  - rewrite displacement_define_hands_over. apply Hhost, three_rows_refused.
  - rewrite squeezing_define_hands_over. apply Hhost, three_rows_refused.
Qed.

Lemma dimension_checking_unitary_refuses :
  refuses_other_dimensions dimension_checking_unitary.
Proof.
  intros M q qc H. unfold dimension_checking_unitary. now rewrite H.
Qed.

Lemma custom_gate_define_raises_witness :
  refuses_other_dimensions dimension_checking_unitary /\
  DisplacementGate._define dimension_checking_unitary
    (DisplacementGate.__init__ 1 0)%R = inl ValueError /\
  SqueezingGate._define dimension_checking_unitary
    (SqueezingGate.__init__ 1 0)%R = inl ValueError.
Proof.
  split; [exact dimension_checking_unitary_refuses|].
  apply (custom_gate_define_raises dimension_checking_unitary 1 0)%R.
  exact dimension_checking_unitary_refuses.
Defined.

(** * Further properties of the embeddings *)

(** ** BasisEmbedding: construction and the object it returns *)

Lemma basis_init_accepts (n : Z) :
  0 < n ->
  BasisEmbedding.__init__ n =
  ok (BasisEmbedding.mk n (ParameterVector "x" n)
        (mkCircuit n (map basis_rx (Py.range n)))).
Proof.
  intros Hn. unfold BasisEmbedding.__init__.
  replace (n <=? 0) with false by (symmetry; apply Z.leb_gt; lia).
  rewrite basis_create_circuit by lia. reflexivity.
Qed.

Lemma param_indices_basis (js : list Z) :
  param_indices (map basis_rx js) = js.
Proof.
  induction js as [|j js IH]; [reflexivity|].
  simpl map. change (param_indices (basis_rx j :: ?l))
    with (j :: param_indices l).
  now rewrite IH.
Qed.

Lemma on_one_qubit_range (n : Z) (f : Z -> CircuitInstruction) :
  (forall j, qubits (f j) = [j]) ->
  Forall (on_one_qubit n) (map f (Py.range n)).
Proof.
  intros Hf. apply Forall_forall. intros op Hop.
  apply in_map_iff in Hop as [j [<- Hj]]. apply in_range in Hj.
  exists j. split; [apply Hf|exact Hj].
Qed.

(** X11.  [BasisEmbedding(num_qubits)] is constructed exactly when
    [num_qubits] is positive; for zero and negative values, and only
    then, it raises QiskitError with the message about a positive
    integer. *)
Theorem basis_init_succeeds_iff (n : Z) :
  ((exists e, BasisEmbedding.__init__ n = inr e) <-> 0 < n) /\
  (BasisEmbedding.__init__ n =
   inl (QiskitError "num_qubits must be a positive integer.") <-> n <= 0).
Proof.
  destruct (Z.le_gt_cases n 0) as [Hle|Hgt].
  - rewrite (basis_init_rejects n Hle). split; split.
    + intros [e He]. discriminate He.
    + lia.
    + intros _. exact Hle.
    + reflexivity.
  - rewrite (basis_init_accepts n Hgt). split; split.
    + intros _. exact Hgt.
    + intros _. eexists. reflexivity.
    + intros H. discriminate H.
    + lia.
Qed.

(** X12.  Every object the basis constructor returns is consistent: it
    records [num_qubits], its parameter vector has [num_qubits]
    elements, its circuit has [num_qubits] qubits, every instruction
    acts on one qubit of the circuit, and the vector elements are used
    in order [x[0], ..., x[num_qubits - 1]], each exactly once. *)
Theorem basis_object_invariants (n : Z) (e : BasisEmbedding.t) :
  BasisEmbedding.__init__ n = inr e ->
  BasisEmbedding.num_qubits e = n /\
  Py.len (BasisEmbedding.params e) = n /\
  qc_num_qubits (BasisEmbedding.get_circuit e) = n /\
  Forall (on_one_qubit n) (data (BasisEmbedding.get_circuit e)) /\
  param_indices (data (BasisEmbedding.get_circuit e)) = Py.range n /\
  NoDup (param_indices (data (BasisEmbedding.get_circuit e))).
Proof.
  intros He.
  destruct (Z.le_gt_cases n 0) as [Hle|Hgt].
  - rewrite (basis_init_rejects n Hle) in He. discriminate He.
  - rewrite (basis_init_accepts n Hgt) in He. injection He as <-.
    cbn [BasisEmbedding.num_qubits BasisEmbedding.params
         BasisEmbedding.get_circuit BasisEmbedding.circuit
         qc_num_qubits data].
    rewrite param_indices_basis.
    repeat split.
    + unfold ParameterVector. rewrite len_map. apply len_range. lia.
    + apply on_one_qubit_range. reflexivity.
    + apply NoDup_range.
Qed.

Lemma basis_object_invariants_witness :
  param_indices
    (data (BasisEmbedding.get_circuit
             (BasisEmbedding.mk 2 (ParameterVector "x" 2)
                (mkCircuit 2 (map basis_rx (Py.range 2)))))) = Py.range 2.
Proof.
  apply (basis_object_invariants 2
           (BasisEmbedding.mk 2 (ParameterVector "x" 2)
              (mkCircuit 2 (map basis_rx (Py.range 2))))).
  reflexivity.
Defined.

(** ** AngleEmbedding: construction *)

Lemma is_kind_PyStr (kind : string) :
  is_kind (Py.PyStr kind) = valid_kindb kind.
Proof. reflexivity. Qed.

(** A list of objects that are all kinds is a list of valid strings. *)
Lemma kinds_of_items (items : list Py.object) :
  forallb is_kind items = true ->
  exists kinds,
    items = map Py.PyStr kinds /\ forallb valid_kindb kinds = true.
Proof.
  induction items as [|o items IH]; intros H.
  - exists []. split; reflexivity.
  - simpl in H. apply andb_prop in H as [Ho Hitems].
    destruct (IH Hitems) as [kinds [-> Hk]].
    destruct o; try discriminate Ho.
    exists (s :: kinds). split; [reflexivity|].
    simpl. rewrite <- is_kind_PyStr, Ho. exact Hk.
Qed.

Lemma forallb_is_kind_strings (kinds : list string) :
  forallb is_kind (map Py.PyStr kinds) = forallb valid_kindb kinds.
Proof.
  induction kinds as [|k kinds IH]; [reflexivity|].
  simpl. now rewrite IH.
Qed.

(** The two tests on the elements of [gate_sequence] together say that
    every element is a kind. *)
Lemma init_element_tests (items : list Py.object) :
  forallb Py.isinstance_str items = true ->
  existsb (fun gate => negb (AngleEmbedding.in_valid_gates gate)) items =
  negb (forallb is_kind items).
Proof.
  induction items as [|o items IH]; intros H; [reflexivity|].
  simpl in H. apply andb_prop in H as [Ho Hitems].
  simpl. rewrite (is_kind_in_valid_gates o Ho), (IH Hitems).
  destruct (is_kind o); reflexivity.
Qed.

Lemma forallb_is_kind_str (items : list Py.object) :
  forallb is_kind items = true -> forallb Py.isinstance_str items = true.
Proof.
  induction items as [|o items IH]; intros H; [reflexivity|].
  simpl in H. apply andb_prop in H as [Ho Hitems].
  simpl. rewrite (is_kind_isinstance_str o Ho). now apply IH.
Qed.

(** What the three checks of the constructor amount to. *)
Lemma angle_init_inversion
        (gate_sequence : Py.object) (n : Z) (rp : bool)
        (e : AngleEmbedding.t) :
  AngleEmbedding.__init__ gate_sequence n rp = inr e <->
  exists items,
    gate_sequence = Py.PyList items /\
    forallb is_kind items = true /\
    0 < n /\
    e = AngleEmbedding.mk items n rp.
Proof.
  split.
  - unfold AngleEmbedding.__init__.
    destruct gate_sequence; try discriminate.
    destruct (forallb Py.isinstance_str items) eqn:Hstr;
      [|discriminate].
    cbn [negb].
    destruct (n <=? 0) eqn:Hn; [discriminate|].
    rewrite (init_element_tests items Hstr).
    destruct (forallb is_kind items) eqn:Hkinds; [|discriminate].
    cbn [negb]. intros He. injection He as <-.
    exists items. apply Z.leb_gt in Hn. auto.
  - intros (items & -> & Hkinds & Hn & ->).
    unfold AngleEmbedding.__init__.
    rewrite (forallb_is_kind_str items Hkinds). cbn [negb].
    replace (n <=? 0) with false by (symmetry; apply Z.leb_gt; lia).
    rewrite (init_element_tests items (forallb_is_kind_str items Hkinds)).
    rewrite Hkinds. reflexivity.
Qed.

(** X13.  [AngleEmbedding(gate_sequence, num_qubits, repeat_parameters)]
    is constructed exactly when [gate_sequence] is a list all of whose
    elements are strings in {RX, RY, RZ} and [num_qubits] is positive,
    and the object then records the three arguments unchanged. *)
Theorem angle_init_succeeds_iff
        (gate_sequence : Py.object) (n : Z) (rp : bool)
        (e : AngleEmbedding.t) :
  AngleEmbedding.__init__ gate_sequence n rp = inr e <->
  exists items,
    gate_sequence = Py.PyList items /\
    forallb is_kind items = true /\
    0 < n /\
    e = AngleEmbedding.mk items n rp.
Proof. apply angle_init_inversion. Qed.

(** ** AngleEmbedding: every circuit is well formed *)

Lemma gate_name_cases (kind : string) :
  In (gate_name kind) ["rx"; "ry"; "rz"].
Proof.
  unfold gate_name.
  destruct (String.eqb kind "RX"); [simpl; auto|].
  destruct (String.eqb kind "RY"); simpl; auto.
Qed.

Lemma layers_well_formed (n : Z) (rp : bool) :
  0 < n ->
  forall (kinds : list string) (l : Z),
    0 <= l ->
    Forall (well_formed_rotation
              n (if rp then n else (l + Py.len kinds) * n))
           (layers_from rp n kinds l).
Proof.
  intros Hn. induction kinds as [|kind kinds IH]; intros l Hl.
  - constructor.
  - simpl layers_from. apply Forall_app. split.
    + apply Forall_forall. intros op Hop.
      apply in_map_iff in Hop as [j [<- Hj]]. apply in_range in Hj.
      pose proof (len_nonneg kinds) as Hk.
      rewrite len_cons.
      split; [apply gate_name_cases|]. split; [reflexivity|].
      split; [exists j; split; [reflexivity|exact Hj]|].
      eexists. split; [reflexivity|]. destruct rp; nia.
    + rewrite len_cons.
      replace (l + (Py.len kinds + 1)) with (l + 1 + Py.len kinds) by lia.
      apply IH. lia.
Qed.

(** X14.  On every object the angle constructor returns,
    [_layer_sequence] raises nothing; its circuit has [num_qubits]
    qubits and [num_qubits * len(gate_sequence)] instructions, each of
    them a one-qubit [rx], [ry] or [rz] on a qubit of the circuit whose
    parameter is an element of [x] inside the declared length
    ([num_qubits] when repeating, [num_qubits * len(gate_sequence)]
    otherwise). *)
Theorem angle_circuit_well_formed
        (gate_sequence : Py.object) (n : Z) (rp : bool)
        (e : AngleEmbedding.t) :
  AngleEmbedding.__init__ gate_sequence n rp = inr e ->
  exists qc,
    AngleEmbedding._layer_sequence e = inr qc /\
    qc_num_qubits qc = n /\
    Py.len (data qc) = n * Py.len (AngleEmbedding.gate_sequence e) /\
    Forall (well_formed_rotation
              n (if rp then n
                 else n * Py.len (AngleEmbedding.gate_sequence e)))
           (data qc).
Proof.
  intros He.
  apply angle_init_inversion in He as (items & -> & Hkinds & Hn & ->).
  destruct (kinds_of_items items Hkinds) as [kinds [-> Hvalid]].
  apply forallb_valid_kinds in Hvalid.
  exists (mkCircuit n (layers_from rp n kinds 0)).
  split; [now apply angle_layer_sequence|].
  cbn [qc_num_qubits data AngleEmbedding.gate_sequence].
  rewrite len_map.
  split; [reflexivity|]. split; [now apply len_layers_from|].
  pose proof (layers_well_formed n rp Hn kinds 0 (Z.le_refl 0)) as H.
  replace ((0 + Py.len kinds) * n) with (n * Py.len kinds) in H by lia.
  exact H.
Qed.

Lemma angle_circuit_well_formed_witness :
  exists qc,
    AngleEmbedding._layer_sequence
      (AngleEmbedding.mk [Py.PyStr "RX"; Py.PyStr "RZ"] 2 false) = inr qc /\
    qc_num_qubits qc = 2.
Proof.
  destruct (angle_circuit_well_formed
              (Py.PyList [Py.PyStr "RX"; Py.PyStr "RZ"]) 2 false
              (AngleEmbedding.mk [Py.PyStr "RX"; Py.PyStr "RZ"] 2 false))
    as (qc & Hrun & Hwidth & _); [reflexivity|].
  exists qc. split; assumption.
Defined.

(** ** AngleEmbedding: what [repeat_parameters] changes *)

Lemma skeleton_layers (n : Z) (kinds : list string) :
  forall (rp : bool) (l : Z),
    map skeleton (layers_from rp n kinds l) =
    flat_map (fun kind => map (fun j => (gate_name kind, [j])) (Py.range n))
             kinds.
Proof.
  induction kinds as [|kind kinds IH]; intros rp l; [reflexivity|].
  simpl layers_from. simpl flat_map.
  rewrite map_app, map_map, IH. reflexivity.
Qed.

(** X15.  [repeat_parameters] changes only which element of [x] each
    gate refers to: for the same [gate_sequence] and [num_qubits] the
    two circuits hold the same gates on the same qubits in the same
    order. *)
Theorem angle_repeat_keeps_gates
        (gate_sequence : Py.object) (n : Z)
        (e_repeat e_fresh : AngleEmbedding.t) :
  AngleEmbedding.__init__ gate_sequence n true = inr e_repeat ->
  AngleEmbedding.__init__ gate_sequence n false = inr e_fresh ->
  exists qc_repeat qc_fresh,
    AngleEmbedding._layer_sequence e_repeat = inr qc_repeat /\
    AngleEmbedding._layer_sequence e_fresh = inr qc_fresh /\
    map skeleton (data qc_repeat) = map skeleton (data qc_fresh).
Proof.
  intros Ht Hf.
  apply angle_init_inversion in Ht as (items & -> & Hkinds & Hn & ->).
  apply angle_init_inversion in Hf as (items' & Heq & _ & _ & ->).
  injection Heq as <-.
  destruct (kinds_of_items items Hkinds) as [kinds [-> Hvalid]].
  apply forallb_valid_kinds in Hvalid.
  exists (mkCircuit n (layers_from true n kinds 0)).
  exists (mkCircuit n (layers_from false n kinds 0)).
  split; [now apply angle_layer_sequence|].
  split; [now apply angle_layer_sequence|].
  cbn [data]. now rewrite !skeleton_layers.
Qed.

Lemma angle_repeat_keeps_gates_witness :
  exists qc_repeat qc_fresh,
    AngleEmbedding._layer_sequence
      (AngleEmbedding.mk [Py.PyStr "RY"; Py.PyStr "RX"] 2 true)
      = inr qc_repeat /\
    AngleEmbedding._layer_sequence
      (AngleEmbedding.mk [Py.PyStr "RY"; Py.PyStr "RX"] 2 false)
      = inr qc_fresh /\
    map skeleton (data qc_repeat) = map skeleton (data qc_fresh).
Proof.
  apply (angle_repeat_keeps_gates
           (Py.PyList [Py.PyStr "RY"; Py.PyStr "RX"]) 2);
    reflexivity.
Defined.

(** ** AngleEmbedding: adding layers *)

Lemma layers_from_app (rp : bool) (n : Z) (ks1 ks2 : list string) :
  forall l,
    layers_from rp n (ks1 ++ ks2) l =
    (layers_from rp n ks1 l ++ layers_from rp n ks2 (l + Py.len ks1))%list.
Proof.
  induction ks1 as [|k ks1 IH]; intros l.
  - simpl. unfold Py.len. simpl. now rewrite Z.add_0_r.
  - simpl app. simpl layers_from. rewrite IH, <- app_assoc, len_cons.
    do 3 f_equal. lia.
Qed.

Lemma layers_repeated_any_start (n : Z) (kinds : list string) (l l' : Z) :
  layers_from true n kinds l = layers_from true n kinds l'.
Proof.
  revert l l'. induction kinds as [|k kinds IH]; intros l l'; [reflexivity|].
  simpl. f_equal. apply IH.
Qed.

Lemma forallb_valid_app (ks1 ks2 : list string) :
  forallb valid_kindb ks1 = true -> forallb valid_kindb ks2 = true ->
  Forall valid_kind (ks1 ++ ks2).
Proof.
  intros H1 H2. apply Forall_app.
  split; now apply forallb_valid_kinds.
Qed.

(** X16.  Appending kinds to [gate_sequence] only appends to the
    circuit: the circuit of [ks1] is a prefix of the circuit of
    [ks1 + ks2].  The part after it has the gates and qubits of the
    circuit of [ks2]; with [repeat_parameters] it is that circuit, and
    without it the parameter indices are those of the circuit of [ks2]
    moved up by [num_qubits * len(ks1)]. *)
Theorem angle_layers_append
        (ks1 ks2 : list string) (n : Z) (rp : bool) :
  forallb valid_kindb ks1 = true ->
  forallb valid_kindb ks2 = true ->
  0 < n ->
  exists qc1 qc2 qc12 rest,
    AngleEmbedding._layer_sequence
      (AngleEmbedding.mk (map Py.PyStr ks1) n rp) = inr qc1 /\
    AngleEmbedding._layer_sequence
      (AngleEmbedding.mk (map Py.PyStr ks2) n rp) = inr qc2 /\
    AngleEmbedding._layer_sequence
      (AngleEmbedding.mk (map Py.PyStr (ks1 ++ ks2)) n rp) = inr qc12 /\
    data qc12 = (data qc1 ++ rest)%list /\
    map skeleton rest = map skeleton (data qc2) /\
    (rp = true -> rest = data qc2) /\
    (rp = false ->
     param_indices rest =
     map (fun i => n * Py.len ks1 + i) (param_indices (data qc2))).
Proof.
  intros H1 H2 Hn.
  exists (mkCircuit n (layers_from rp n ks1 0)).
  exists (mkCircuit n (layers_from rp n ks2 0)).
  exists (mkCircuit n (layers_from rp n (ks1 ++ ks2) 0)).
  exists (layers_from rp n ks2 (0 + Py.len ks1)).
  split; [apply angle_layer_sequence; auto using forallb_valid_kinds|].
  split; [apply angle_layer_sequence; auto using forallb_valid_kinds|].
  split; [apply angle_layer_sequence; auto using forallb_valid_app|].
  cbn [data].
  split; [apply layers_from_app|].
  split; [now rewrite !skeleton_layers|].
  split.
  - intros ->. apply layers_repeated_any_start.
  - intros ->. rewrite !param_indices_fresh by assumption.
    rewrite map_map. apply map_ext. intros i. lia.
Qed.

Lemma angle_layers_append_witness :
  exists qc1 qc12 rest,
    AngleEmbedding._layer_sequence
      (AngleEmbedding.mk (map Py.PyStr ["RY"]) 2 false) = inr qc1 /\
    AngleEmbedding._layer_sequence
      (AngleEmbedding.mk (map Py.PyStr (["RY"] ++ ["RZ"; "RX"])) 2 false)
      = inr qc12 /\
    data qc12 = (data qc1 ++ rest)%list.
Proof.
  destruct (angle_layers_append ["RY"] ["RZ"; "RX"] 2 false)
    as (qc1 & qc2 & qc12 & rest & Hq1 & _ & Hq12 & Happ & _);
    [reflexivity | reflexivity | lia |].
  exists qc1, qc12, rest. auto.
Defined.

(** ** DisplacementEmbedding and SqueezingEmbedding: all of [num_qubits] *)

(** A negative [num_qubits] is refused when the circuit is created. *)
Lemma cv_negative_qubits (n : Z) (amplitude : bool) :
  n < 0 ->
  DisplacementEmbedding.create_circuit
    (DisplacementEmbedding.mk n amplitude (ParameterVector "x" n)) =
    inl CircuitError /\
  SqueezingEmbedding.create_circuit
    (SqueezingEmbedding.mk n amplitude (ParameterVector "x" n)) =
    inl CircuitError.
Proof.
  intros Hn.
  unfold DisplacementEmbedding.create_circuit,
    SqueezingEmbedding.create_circuit, new_circuit.
  cbn [DisplacementEmbedding.num_qubits SqueezingEmbedding.num_qubits].
  replace (n <? 0) with true by (symmetry; apply Z.ltb_lt; lia).
  split; reflexivity.
Qed.

(** X17.  Constructing a displacement or squeezing scheme and asking for
    its circuit yields a circuit exactly when [num_qubits] is not
    negative; for a negative [num_qubits], and only then, the error is
    CircuitError, raised by [create_circuit] and not by the
    constructor. *)
Theorem cv_create_circuit_domain (n : Z) (amplitude : bool) :
  ((exists qc,
      (d <- DisplacementEmbedding.__init__ n amplitude ;;
       DisplacementEmbedding.create_circuit d) = inr qc) <-> 0 <= n) /\
  ((d <- DisplacementEmbedding.__init__ n amplitude ;;
    DisplacementEmbedding.create_circuit d) = inl CircuitError <-> n < 0) /\
  ((exists qc,
      (s <- SqueezingEmbedding.__init__ n amplitude ;;
       SqueezingEmbedding.create_circuit s) = inr qc) <-> 0 <= n) /\
  ((s <- SqueezingEmbedding.__init__ n amplitude ;;
    SqueezingEmbedding.create_circuit s) = inl CircuitError <-> n < 0).
Proof.
  unfold DisplacementEmbedding.__init__, SqueezingEmbedding.__init__.
  cbn [bind ok].
  destruct (Z.lt_ge_cases n 0) as [Hneg|Hpos].
  - destruct (cv_negative_qubits n amplitude Hneg) as [-> ->].
    repeat split; try lia; try (intros [qc H]; discriminate H); auto.
  - rewrite displacement_create_circuit, squeezing_create_circuit by lia.
    repeat split; try lia; try (intros H; discriminate H);
      intros _; eexists; reflexivity.
Qed.

(** ** DisplacementEmbedding and SqueezingEmbedding: how the circuits
    relate *)

Lemma displacement_built (n : Z) (amplitude : bool) (qc : QuantumCircuit) :
  (d <- DisplacementEmbedding.__init__ n amplitude ;;
   DisplacementEmbedding.create_circuit d) = inr qc ->
  0 <= n /\
  qc = mkCircuit n
         (map (fun i => mkInstruction (mkGate "D" 1 (cv_params amplitude i)) [i])
              (Py.range n)).
Proof.
  unfold DisplacementEmbedding.__init__. cbn [bind ok]. intros H.
  destruct (Z.lt_ge_cases n 0) as [Hneg|Hpos].
  - destruct (cv_negative_qubits n amplitude Hneg) as [E _].
    rewrite E in H. discriminate H.
  - rewrite displacement_create_circuit in H by lia.
    injection H as <-. split; [lia|reflexivity].
Qed.

Lemma squeezing_built (n : Z) (amplitude : bool) (qc : QuantumCircuit) :
  (s <- SqueezingEmbedding.__init__ n amplitude ;;
   SqueezingEmbedding.create_circuit s) = inr qc ->
  0 <= n /\
  qc = mkCircuit n
         (map (fun i => mkInstruction (mkGate "S" 1 (cv_params amplitude i)) [i])
              (Py.range n)).
Proof.
  unfold SqueezingEmbedding.__init__. cbn [bind ok]. intros H.
  destruct (Z.lt_ge_cases n 0) as [Hneg|Hpos].
  - destruct (cv_negative_qubits n amplitude Hneg) as [_ E].
    rewrite E in H. discriminate H.
  - rewrite squeezing_create_circuit in H by lia.
    injection H as <-. split; [lia|reflexivity].
Qed.

(** X18.  For the same [num_qubits] and selector, the displacement and
    the squeezing circuit are the same circuit up to the name of the
    gate, "D" against "S". *)
Theorem cv_circuits_differ_by_name
        (n : Z) (amplitude : bool) (qd qs : QuantumCircuit) :
  (d <- DisplacementEmbedding.__init__ n amplitude ;;
   DisplacementEmbedding.create_circuit d) = inr qd ->
  (s <- SqueezingEmbedding.__init__ n amplitude ;;
   SqueezingEmbedding.create_circuit s) = inr qs ->
  qc_num_qubits qd = qc_num_qubits qs /\
  data qs = map (rename "S") (data qd) /\
  data qd = map (rename "D") (data qs).
Proof.
  intros Hd Hs.
  apply displacement_built in Hd as [_ ->].
  apply squeezing_built in Hs as [_ ->].
  cbn [qc_num_qubits data]. rewrite !map_map.
  repeat split; reflexivity.
Qed.

Lemma cv_circuits_differ_by_name_witness :
  data (mkCircuit 2
          (map (fun i => mkInstruction (mkGate "S" 1 (cv_params true i)) [i])
               (Py.range 2))) =
  map (rename "S")
      (data (mkCircuit 2
               (map (fun i => mkInstruction
                                (mkGate "D" 1 (cv_params true i)) [i])
                    (Py.range 2)))).
Proof.
  apply (cv_circuits_differ_by_name 2 true); reflexivity.
Defined.

(** X19.  The selector only exchanges the two parameters of every
    gate: the circuit built with [amplitude = False] is the circuit
    built with [amplitude = True] with each gate's parameter pair
    reversed, and conversely, for both schemes. *)
Theorem cv_selector_swaps_parameters
        (n : Z) (qd_a qd_p qs_a qs_p : QuantumCircuit) :
  (d <- DisplacementEmbedding.__init__ n true ;;
   DisplacementEmbedding.create_circuit d) = inr qd_a ->
  (d <- DisplacementEmbedding.__init__ n false ;;
   DisplacementEmbedding.create_circuit d) = inr qd_p ->
  (s <- SqueezingEmbedding.__init__ n true ;;
   SqueezingEmbedding.create_circuit s) = inr qs_a ->
  (s <- SqueezingEmbedding.__init__ n false ;;
   SqueezingEmbedding.create_circuit s) = inr qs_p ->
  data qd_p = map swap_params (data qd_a) /\
  data qd_a = map swap_params (data qd_p) /\
  data qs_p = map swap_params (data qs_a) /\
  data qs_a = map swap_params (data qs_p).
Proof.
  intros Hda Hdp Hsa Hsp.
  apply displacement_built in Hda as [_ ->].
  apply displacement_built in Hdp as [_ ->].
  apply squeezing_built in Hsa as [_ ->].
  apply squeezing_built in Hsp as [_ ->].
  cbn [data]. rewrite !map_map.
  repeat split; reflexivity.
Qed.

Lemma cv_selector_swaps_parameters_witness :
  data (mkCircuit 2
          (map (fun i => mkInstruction (mkGate "D" 1 (cv_params false i)) [i])
               (Py.range 2))) =
  map swap_params
      (data (mkCircuit 2
               (map (fun i => mkInstruction
                                (mkGate "D" 1 (cv_params true i)) [i])
                    (Py.range 2)))).
Proof.
  apply (cv_selector_swaps_parameters 2
           (mkCircuit 2
              (map (fun i => mkInstruction (mkGate "D" 1 (cv_params true i)) [i])
                   (Py.range 2)))
           (mkCircuit 2
              (map (fun i => mkInstruction (mkGate "D" 1 (cv_params false i)) [i])
                   (Py.range 2)))
           (mkCircuit 2
              (map (fun i => mkInstruction (mkGate "S" 1 (cv_params true i)) [i])
                   (Py.range 2)))
           (mkCircuit 2
              (map (fun i => mkInstruction (mkGate "S" 1 (cv_params false i)) [i])
                   (Py.range 2))));
    reflexivity.
Defined.

Lemma param_indices_cv (gate : string) (amplitude : bool) (js : list Z) :
  param_indices
    (map (fun i => mkInstruction (mkGate gate 1 (cv_params amplitude i)) [i])
         js) = js.
Proof.
  induction js as [|j js IH]; [reflexivity|].
  simpl map.
  change (param_indices
            (mkInstruction (mkGate gate 1 (cv_params amplitude j)) [j] :: ?l))
    with ((flat_map value_indices (cv_params amplitude j)
           ++ param_indices l)%list).
  rewrite IH. destruct amplitude; reflexivity.
Qed.

(** X20.  Whenever a displacement or squeezing circuit is built, every
    gate acts on one qubit of the circuit and the elements of [x] are
    used in order [x[0], ..., x[num_qubits - 1]], each exactly once,
    whichever parameter is selected. *)
Theorem cv_circuit_parameter_usage
        (n : Z) (amplitude : bool) (qd qs : QuantumCircuit) :
  (d <- DisplacementEmbedding.__init__ n amplitude ;;
   DisplacementEmbedding.create_circuit d) = inr qd ->
  (s <- SqueezingEmbedding.__init__ n amplitude ;;
   SqueezingEmbedding.create_circuit s) = inr qs ->
  Forall (on_one_qubit n) (data qd) /\
  Forall (on_one_qubit n) (data qs) /\
  param_indices (data qd) = Py.range n /\
  param_indices (data qs) = Py.range n /\
  NoDup (param_indices (data qd)).
Proof.
  intros Hd Hs.
  apply displacement_built in Hd as [_ ->].
  apply squeezing_built in Hs as [_ ->].
  cbn [data]. rewrite !param_indices_cv.
  repeat split;
    try (apply on_one_qubit_range; reflexivity); apply NoDup_range.
Qed.

Lemma cv_circuit_parameter_usage_witness :
  param_indices
    (data (mkCircuit 3
             (map (fun i => mkInstruction
                              (mkGate "D" 1 (cv_params false i)) [i])
                  (Py.range 3)))) = Py.range 3.
Proof.
  apply (cv_circuit_parameter_usage 3 false
           (mkCircuit 3
              (map (fun i => mkInstruction (mkGate "D" 1 (cv_params false i)) [i])
                   (Py.range 3)))
           (mkCircuit 3
              (map (fun i => mkInstruction (mkGate "S" 1 (cv_params false i)) [i])
                   (Py.range 3))));
    reflexivity.
Defined.

(** ** AngleEmbedding: a layer of unknown kind *)

Section UnknownKind.

Variables (n x_length : Z).
Hypothesis n_pos : 0 < n.

Lemma for_each_app {A S : Type} (l1 l2 : list A)
      (body : A -> S -> Result S) (s : S) :
  Py.for_each (l1 ++ l2) body s =
  (s' <- Py.for_each l1 body s ;; Py.for_each l2 body s').
Proof.
  revert s. induction l1 as [|a l1 IH]; intros s; [reflexivity|].
  simpl. destruct (body a s) as [e|s']; [reflexivity|].
  simpl. apply IH.
Qed.

Lemma not_valid_gate_tests (gate : Py.object) :
  AngleEmbedding.in_valid_gates gate = false ->
  AngleEmbedding.eq_str gate "RY" = false /\
  AngleEmbedding.eq_str gate "RZ" = false /\
  AngleEmbedding.eq_str gate "RX" = false.
Proof.
  unfold AngleEmbedding.in_valid_gates. simpl. intros H.
  destruct (AngleEmbedding.eq_str gate "RY"); [discriminate|].
  destruct (AngleEmbedding.eq_str gate "RZ"); [discriminate|].
  destruct (AngleEmbedding.eq_str gate "RX"); [discriminate|].
  auto.
Qed.

Lemma inner_body_skip (rp : bool) (gate : Py.object) (j index : Z)
      (c : QuantumCircuit) :
  AngleEmbedding.in_valid_gates gate = false ->
  0 <= j < n ->
  (rp = true -> n <= x_length) ->
  (rp = false -> 0 <= index < x_length) ->
  inner_body x_length rp gate j (index, c) =
  ok (if rp then index else index + 1, c).
Proof.
  intros Hgate Hj Hrep Hindex. unfold inner_body.
  destruct (not_valid_gate_tests gate Hgate) as (-> & -> & ->).
  destruct rp.
  - rewrite getitem_ParameterVector by (specialize (Hrep eq_refl); lia).
    reflexivity.
  - rewrite getitem_ParameterVector by auto. reflexivity.
Qed.

Lemma inner_loop_skip_seq (rp : bool) (gate : Py.object) :
  AngleEmbedding.in_valid_gates gate = false ->
  (rp = true -> n <= x_length) ->
  forall (m s : nat) (index : Z) (c : QuantumCircuit),
    Z.of_nat (s + m) <= n -> 0 <= index ->
    (rp = false -> index + Z.of_nat m <= x_length) ->
    Py.for_each (map Z.of_nat (seq s m)) (inner_body x_length rp gate)
                (index, c) =
    ok (if rp then index else index + Z.of_nat m, c).
Proof.
  intros Hgate Hrep. induction m as [|m IH]; intros s index c Hs Hi Hx.
  - simpl. rewrite Z.add_0_r. destruct rp; reflexivity.
  - simpl seq. simpl map. rewrite for_each_cons.
    rewrite inner_body_skip; try assumption; try lia.
    2:{ intros Hrp. specialize (Hx Hrp). lia. }
    cbn [bind ok]. rewrite IH; try lia.
    2:{ destruct rp; lia. }
    2:{ intros Hrp. rewrite Hrp. specialize (Hx Hrp). lia. }
    destruct rp; [reflexivity|]. do 2 f_equal. lia.
Qed.

Lemma inner_loop_skip (rp : bool) (gate : Py.object) (index : Z)
      (c : QuantumCircuit) :
  AngleEmbedding.in_valid_gates gate = false ->
  (rp = true -> n <= x_length) ->
  0 <= index ->
  (rp = false -> index + n <= x_length) ->
  Py.for_each (Py.range n) (inner_body x_length rp gate) (index, c) =
  ok (if rp then index else index + n, c).
Proof.
  intros Hgate Hrep Hi Hx. unfold Py.range.
  rewrite inner_loop_skip_seq; try assumption; try lia.
  2:{ intros Hrp. specialize (Hx Hrp). lia. }
  rewrite Z2Nat.id by lia. reflexivity.
Qed.

End UnknownKind.

(** X21.  [_layer_sequence] itself checks nothing: on an object whose
    [gate_sequence] has come to hold, between the kinds [ks1] and
    [ks2], an element that is not one of the strings RY, RZ, RX, it
    raises nothing and emits no gate for that layer.  The circuit is
    the circuit of [ks1] followed by the gates of the circuit of [ks2];
    without [repeat_parameters] the skipped layer still takes its
    [num_qubits] parameter indices, so those of the later layers are the
    ones of the circuit of [ks2] moved up by
    [num_qubits * (len(ks1) + 1)]. *)
Theorem angle_unknown_kind_is_skipped
        (ks1 ks2 : list string) (gate : Py.object) (n : Z) (rp : bool) :
  forallb valid_kindb ks1 = true ->
  forallb valid_kindb ks2 = true ->
  AngleEmbedding.in_valid_gates gate = false ->
  0 < n ->
  exists qc1 qc2 qc rest,
    AngleEmbedding._layer_sequence
      (AngleEmbedding.mk (map Py.PyStr ks1) n rp) = inr qc1 /\
    AngleEmbedding._layer_sequence
      (AngleEmbedding.mk (map Py.PyStr ks2) n rp) = inr qc2 /\
    AngleEmbedding._layer_sequence
      (AngleEmbedding.mk (map Py.PyStr ks1 ++ gate :: map Py.PyStr ks2) n rp)
      = inr qc /\
    data qc = (data qc1 ++ rest)%list /\
    Py.len (data qc) = n * (Py.len ks1 + Py.len ks2) /\
    map skeleton rest = map skeleton (data qc2) /\
    (rp = true -> rest = data qc2) /\
    (rp = false ->
     param_indices rest =
     map (fun i => n * (Py.len ks1 + 1) + i) (param_indices (data qc2))).
Proof.
  intros H1 H2 Hgate Hn.
  pose proof (forallb_valid_kinds ks1 H1) as V1.
  pose proof (forallb_valid_kinds ks2 H2) as V2.
  pose proof (len_nonneg ks1) as L1. pose proof (len_nonneg ks2) as L2.
  exists (mkCircuit n (layers_from rp n ks1 0)).
  exists (mkCircuit n (layers_from rp n ks2 0)).
  exists (mkCircuit n (layers_from rp n ks1 0 ++
                       layers_from rp n ks2 (Py.len ks1 + 1))).
  exists (layers_from rp n ks2 (Py.len ks1 + 1)).
  split; [now apply angle_layer_sequence|].
  split; [now apply angle_layer_sequence|].
  split.
  { unfold AngleEmbedding._layer_sequence, new_circuit.
    cbn [AngleEmbedding.gate_sequence AngleEmbedding.num_qubits
         AngleEmbedding.repeat_parameters].
    replace (n <? 0) with false by (symmetry; apply Z.ltb_ge; lia).
    cbn [bind ok].
    assert (Hlen : Py.len (map Py.PyStr ks1 ++ gate :: map Py.PyStr ks2) =
                   Py.len ks1 + 1 + Py.len ks2).
    { unfold Py.len. rewrite length_app. simpl List.length.
      rewrite !length_map. lia. }
    rewrite Hlen.
    set (x_length := if rp then n else n * (Py.len ks1 + 1 + Py.len ks2)).
    change (Py.for_each (map Py.PyStr ks1 ++ gate :: map Py.PyStr ks2) _
                        (0, mkCircuit n []))
      with (Py.for_each (map Py.PyStr ks1 ++ gate :: map Py.PyStr ks2)
              (fun gate =>
                 Py.for_each (Py.range n) (inner_body x_length rp gate))
              (0, mkCircuit n [])).
    assert (Hrep : rp = true -> n <= x_length)
      by (subst x_length; intros ->; lia).
    assert (Hfresh : rp = false ->
                     x_length = n * (Py.len ks1 + 1 + Py.len ks2))
      by (subst x_length; intros ->; reflexivity).
    rewrite for_each_app.
    rewrite (outer_loop n x_length Hn rp Hrep ks1 0 0);
      try assumption; try reflexivity; try lia.
    2:{ intros Hrp. rewrite (Hfresh Hrp). nia. }
    cbn [bind ok]. rewrite for_each_cons.
    rewrite inner_loop_skip; try assumption.
    2:{ destruct rp; nia. }
    2:{ intros Hrp. rewrite Hrp, (Hfresh Hrp). nia. }
    cbn [bind ok].
    rewrite (outer_loop n x_length Hn rp Hrep ks2 (Py.len ks1 + 1));
      try assumption; try reflexivity; try lia.
    - destruct rp; nia.
    - intros Hrp. rewrite Hrp. lia.
    - intros Hrp. rewrite (Hfresh Hrp). nia. }
  cbn [data].
  split; [reflexivity|].
  split.
  { unfold Py.len at 1. rewrite length_app, Nat2Z.inj_add.
    fold (Py.len (layers_from rp n ks1 0)).
    fold (Py.len (layers_from rp n ks2 (Py.len ks1 + 1))).
    rewrite !len_layers_from by assumption. lia. }
  split; [now rewrite !skeleton_layers|].
  split.
  - intros ->. apply layers_repeated_any_start.
  - intros ->. rewrite !param_indices_fresh by assumption.
    rewrite map_map. apply map_ext. intros i. lia.
Qed.

Lemma angle_unknown_kind_is_skipped_witness :
  exists qc,
    AngleEmbedding._layer_sequence
      (AngleEmbedding.mk
         (map Py.PyStr ["RY"] ++ Py.PyStr "H" :: map Py.PyStr ["RX"]) 2 false)
      = inr qc /\
    Py.len (data qc) = 2 * (Py.len ["RY"] + Py.len ["RX"]).
Proof.
  destruct (angle_unknown_kind_is_skipped ["RY"] ["RX"] (Py.PyStr "H") 2 false)
    as (qc1 & qc2 & qc & rest & _ & _ & Hqc & _ & Hlen & _);
    [reflexivity | reflexivity | reflexivity | lia |].
  exists qc. split; assumption.
Defined.
